(** * Dental Kids App: the controller of [js/app.js]

    A shallow embedding of the [DentalKidsApp] class: the progress record
    and its JSON form in [localStorage], the navigation between sections,
    the procedure modal, the sound toggle and the badges, with the
    properties of these that hold of the code.

    The controller's methods are state transformers that may throw
    ([M]); the page is the record [Dom]; [setTimeout] callbacks wait in
    [timers] until they fire; console lines, tones and purely visual work
    are appended to [trace]. *)

From Stdlib Require Import String Ascii List ZArith QArith Qround Lia Bool.
From Stdlib Require Import DecimalString DecimalN DecimalFacts.
From stdpp Require Import gmap strings.
Import ListNotations.
Open Scope string_scope.

(** * JSON

    [JSON.stringify] and [JSON.parse] on the values the controller
    stores.  A string is a byte string, the UTF-8 form of the JavaScript
    string; a number is an integer.  [JSON_parse] tells three cases
    apart: a text that is not JSON ([SyntaxError]); a JSON text whose
    value is read exactly (integers, strings whose [\u] escapes stay
    within ASCII, arrays, and objects as the list of their members in the
    order of the text); and any other JSON text (a fraction, an exponent,
    [-0], other [\u] escapes, a repeated or numeric property name), whose
    value is not computed.  Integers are not rounded: beyond [2^53]
    JavaScript rounds a literal to the nearest double and this model does
    not, see [safe_integers]. *)

Module Json.

#[warnings="-register-all"]
Inductive json : Type :=
  | JNull
  | JBool (b : bool)
  | JNumber (z : Z)
  | JString (s : string)
  | JArray (elements : list json)
  | JObject (members : list (string * json)).

Definition quote : ascii := "034"%char.
Definition backslash : ascii := "\"%char.

Definition hex_digit (n : nat) : ascii :=
  ascii_of_nat (if n <? 10 then 48 + n else 87 + n)%nat.

Definition escape_char (c : ascii) (k : string) : string :=
  let n := nat_of_ascii c in
  if (c =? quote)%char then String backslash (String quote k)
  else if (c =? backslash)%char then String backslash (String backslash k)
  else if (n =? 8)%nat then String backslash (String "b" k)
  else if (n =? 9)%nat then String backslash (String "t" k)
  else if (n =? 10)%nat then String backslash (String "n" k)
  else if (n =? 12)%nat then String backslash (String "f" k)
  else if (n =? 13)%nat then String backslash (String "r" k)
  else if (n <? 32)%nat then
    String backslash (String "u" (String "0" (String "0"
      (String (hex_digit (n / 16)) (String (hex_digit (n mod 16)) k)))))
  else String c k.

Fixpoint emit_chars (s : string) (k : string) : string :=
  match s with
  | EmptyString => k
  | String c r => escape_char c (emit_chars r k)
  end.

Definition emit_string (s : string) (k : string) : string :=
  String quote (emit_chars s (String quote k)).

Definition emit_number (z : Z) (k : string) : string :=
  if (z <? 0)%Z
  then String "-" (NilEmpty.string_of_uint (N.to_uint (Z.abs_N z)) ++ k)
  else NilEmpty.string_of_uint (N.to_uint (Z.to_N z)) ++ k.

Section Separated.
Context {A : Type} (emit : A -> string -> string) (close : ascii).

Fixpoint sep_by (xs : list A) (k : string) : string :=
    match xs with
    | [] => k
    | x :: xs' => String "," (emit x (sep_by xs' k))
    end.

Definition emit_list (xs : list A) (k : string) : string :=
    match xs with
    | [] => String close k
    | x :: xs' => emit x (sep_by xs' (String close k))
    end.
End Separated.

Fixpoint emit_value (v : json) (k : string) : string :=
  match v with
  | JNull => "null" ++ k
  | JBool true => "true" ++ k
  | JBool false => "false" ++ k
  | JNumber z => emit_number z k
  | JString s => emit_string s k
  | JArray l => String "[" (emit_list emit_value "]" l k)
  | JObject l =>
      String "{" (emit_list
        (fun m k' => emit_string (fst m) (String ":" (emit_value (snd m) k'))) "}" l k)
  end.

Definition JSON_stringify (v : json) : string := emit_value v "".

(** ** Parsing *)

Definition is_ws (c : ascii) : bool :=
  let n := nat_of_ascii c in
  (n =? 32)%nat || (n =? 9)%nat || (n =? 10)%nat || (n =? 13)%nat.

Fixpoint skip_ws (s : string) : string :=
  match s with
  | String c r => if is_ws c then skip_ws r else s
  | EmptyString => s
  end.

Definition is_digit (c : ascii) : bool :=
  let n := nat_of_ascii c in (48 <=? n)%nat && (n <=? 57)%nat.

Fixpoint span_digits (s : string) : string * string :=
  match s with
  | String c r =>
      if is_digit c then let '(ds, k) := span_digits r in (String c ds, k)
      else (EmptyString, s)
  | EmptyString => (EmptyString, s)
  end.

Fixpoint strip (p s : string) : option string :=
  match p, s with
  | EmptyString, _ => Some s
  | String a p', String b s' => if (a =? b)%char then strip p' s' else None
  | String _ _, EmptyString => None
  end.

Definition hex_value (c : ascii) : option nat :=
  let n := nat_of_ascii c in
  if is_digit c then Some (n - 48)%nat
  else if (97 <=? n)%nat && (n <=? 102)%nat then Some (n - 87)%nat
  else if (65 <=? n)%nat && (n <=? 70)%nat then Some (n - 55)%nat
  else None.

Definition unescape (e : ascii) : option ascii :=
  if (e =? quote)%char then Some quote
  else if (e =? backslash)%char then Some backslash
  else if (e =? "/")%char then Some "/"%char
  else if (e =? "b")%char then Some (ascii_of_nat 8)
  else if (e =? "t")%char then Some (ascii_of_nat 9)
  else if (e =? "n")%char then Some (ascii_of_nat 10)
  else if (e =? "f")%char then Some (ascii_of_nat 12)
  else if (e =? "r")%char then Some (ascii_of_nat 13)
  else None.

Definition prepend (c : ascii) (r : option (string * string)) : option (string * string) :=
  '(s, k) ← r; Some (String c s, k).

Fixpoint parse_chars (s : string) : option (string * string) :=
  match s with
  | EmptyString => None
  | String c r =>
      if (c =? quote)%char then Some (EmptyString, r)
      else if (c =? backslash)%char then
        match r with
        | String e r1 =>
            if (e =? "u")%char then
              match r1 with
              | String h1 (String h2 (String h3 (String h4 r2))) =>
                  match hex_value h1, hex_value h2, hex_value h3, hex_value h4 with
                  | Some 0%nat, Some 0%nat, Some a, Some b =>
                      if (a <? 8)%nat
                      then prepend (ascii_of_nat (16 * a + b)) (parse_chars r2)
                      else None
                  | _, _, _, _ => None
                  end
              | _ => None
              end
            else
              match unescape e with
              | Some d => prepend d (parse_chars r1)
              | None => None
              end
        | EmptyString => None
        end
      else if (nat_of_ascii c <? 32)%nat then None
      else prepend c (parse_chars r)
  end.

Definition number_follow (k : string) : bool :=
  match k with
  | String c _ => negb (is_digit c || (c =? ".")%char || (c =? "e")%char || (c =? "E")%char)
  | EmptyString => true
  end.

Definition parse_digits (s : string) : option (N * string) :=
  let '(ds, k) := span_digits s in
  match ds with
  | EmptyString => None
  | String d ds' =>
      if (d =? "0")%char && negb (String.eqb ds' EmptyString) then None
      else if number_follow k then
        u ← NilEmpty.uint_of_string ds; Some (N.of_uint u, k)
      else None
  end.

Definition parse_number (s : string) : option (Z * string) :=
  match s with
  | String c r =>
      if (c =? "-")%char then
        '(n, k) ← parse_digits r;
        if (n =? 0)%N then None else Some (Z.opp (Z.of_N n), k)
      else '(n, k) ← parse_digits s; Some (Z.of_N n, k)
  | EmptyString => None
  end.

Section Items.
Context (parse_item : string -> option (json * string)).

Fixpoint parse_elements (n : nat) (s : string) : option (list json * string) :=
    match n with
    | O => None
    | S n' =>
        '(v, r) ← parse_item s;
        match skip_ws r with
        | String c r' =>
            if (c =? ",")%char then '(vs, k) ← parse_elements n' r'; Some (v :: vs, k)
            else if (c =? "]")%char then Some ([v], r')
            else None
        | EmptyString => None
        end
    end.

Fixpoint parse_members (n : nat) (s : string) : option (list (string * json) * string) :=
    match n with
    | O => None
    | S n' =>
        match skip_ws s with
        | String q r0 =>
            if (q =? quote)%char then
              '(key, r1) ← parse_chars r0;
              match skip_ws r1 with
              | String c1 r2 =>
                  if (c1 =? ":")%char then
                    '(v, r3) ← parse_item r2;
                    match skip_ws r3 with
                    | String c r' =>
                        if (c =? ",")%char then
                          '(ms, k) ← parse_members n' r'; Some ((key, v) :: ms, k)
                        else if (c =? "}")%char then Some ([(key, v)], r')
                        else None
                    | EmptyString => None
                    end
                  else None
              | EmptyString => None
              end
            else None
        | EmptyString => None
        end
    end.
End Items.

Fixpoint parse_value (fuel : nat) (s : string) : option (json * string) :=
  match fuel with
  | O => None
  | S fuel' =>
      match skip_ws s with
      | String c r =>
          if (c =? "n")%char then k ← strip "ull" r; Some (JNull, k)
          else if (c =? "t")%char then k ← strip "rue" r; Some (JBool true, k)
          else if (c =? "f")%char then k ← strip "alse" r; Some (JBool false, k)
          else if (c =? quote)%char then '(str, k) ← parse_chars r; Some (JString str, k)
          else if (c =? "[")%char then
            match skip_ws r with
            | String c' r' =>
                if (c' =? "]")%char then Some (JArray [], r')
                else '(vs, k) ← parse_elements (parse_value fuel') fuel' r; Some (JArray vs, k)
            | EmptyString => None
            end
          else if (c =? "{")%char then
            match skip_ws r with
            | String c' r' =>
                if (c' =? "}")%char then Some (JObject [], r')
                else '(ms, k) ← parse_members (parse_value fuel') fuel' r; Some (JObject ms, k)
            | EmptyString => None
            end
          else '(z, k) ← parse_number (String c r); Some (JNumber z, k)
      | EmptyString => None
      end
  end.

(** [parse_value] on a whole text: the value, for the texts read
    exactly. *)
Definition parse_exact (text : string) : option json :=
  '(v, k) ← parse_value (S (String.length text)) text;
  match skip_ws k with
  | EmptyString => Some v
  | String _ _ => None
  end.

(** ** The JSON grammar

    The texts [JSON.parse] accepts, with every form of number and every
    escape, whether or not the value is one of those read exactly. *)

Definition is_hex (c : ascii) : bool :=
  match hex_value c with Some _ => true | None => false end.

(** The rest of a string literal, after the opening quote. *)
Fixpoint scan_chars (s : string) : option string :=
  match s with
  | EmptyString => None
  | String c r =>
      if (c =? quote)%char then Some r
      else if (c =? backslash)%char then
        match r with
        | String e r1 =>
            if (e =? "u")%char then
              match r1 with
              | String h1 (String h2 (String h3 (String h4 r2))) =>
                  if is_hex h1 && is_hex h2 && is_hex h3 && is_hex h4
                  then scan_chars r2 else None
              | _ => None
              end
            else
              match unescape e with
              | Some _ => scan_chars r1
              | None => None
              end
        | EmptyString => None
        end
      else if (nat_of_ascii c <? 32)%nat then None
      else scan_chars r
  end.

(** One digit or more. *)
Definition scan_digits (s : string) : option string :=
  match span_digits s with
  | (EmptyString, _) => None
  | (String _ _, k) => Some k
  end.

(** [0], or a digit other than [0] and the digits after it. *)
Definition scan_int (s : string) : option string :=
  match s with
  | String c r =>
      if (c =? "0")%char then Some r
      else if is_digit c then Some (snd (span_digits r))
      else None
  | EmptyString => None
  end.

Definition scan_fraction (s : string) : option string :=
  match s with
  | String c r => if (c =? ".")%char then scan_digits r else Some s
  | EmptyString => Some s
  end.

Definition scan_exponent (s : string) : option string :=
  match s with
  | String c r =>
      if (c =? "e")%char || (c =? "E")%char then
        match r with
        | String d r' =>
            if (d =? "+")%char || (d =? "-")%char then scan_digits r' else scan_digits r
        | EmptyString => None
        end
      else Some s
  | EmptyString => Some s
  end.

Definition scan_number (s : string) : option string :=
  let digits := match s with
                | String c r => if (c =? "-")%char then r else s
                | EmptyString => s
                end in
  k ← scan_int digits; k ← scan_fraction k; scan_exponent k.

Section ScanItems.
Context (scan_item : string -> option string).

Fixpoint scan_elements (n : nat) (s : string) : option string :=
    match n with
    | O => None
    | S n' =>
        r ← scan_item s;
        match skip_ws r with
        | String c r' =>
            if (c =? ",")%char then scan_elements n' r'
            else if (c =? "]")%char then Some r'
            else None
        | EmptyString => None
        end
    end.

Fixpoint scan_members (n : nat) (s : string) : option string :=
    match n with
    | O => None
    | S n' =>
        match skip_ws s with
        | String q r0 =>
            if (q =? quote)%char then
              r1 ← scan_chars r0;
              match skip_ws r1 with
              | String c1 r2 =>
                  if (c1 =? ":")%char then
                    r3 ← scan_item r2;
                    match skip_ws r3 with
                    | String c r' =>
                        if (c =? ",")%char then scan_members n' r'
                        else if (c =? "}")%char then Some r'
                        else None
                    | EmptyString => None
                    end
                  else None
              | EmptyString => None
              end
            else None
        | EmptyString => None
        end
    end.
End ScanItems.

Fixpoint scan_value (fuel : nat) (s : string) : option string :=
  match fuel with
  | O => None
  | S fuel' =>
      match skip_ws s with
      | String c r =>
          if (c =? "n")%char then strip "ull" r
          else if (c =? "t")%char then strip "rue" r
          else if (c =? "f")%char then strip "alse" r
          else if (c =? quote)%char then scan_chars r
          else if (c =? "[")%char then
            match skip_ws r with
            | String c' r' =>
                if (c' =? "]")%char then Some r'
                else scan_elements (scan_value fuel') fuel' r
            | EmptyString => None
            end
          else if (c =? "{")%char then
            match skip_ws r with
            | String c' r' =>
                if (c' =? "}")%char then Some r'
                else scan_members (scan_value fuel') fuel' r
            | EmptyString => None
            end
          else scan_number (String c r)
      | EmptyString => None
      end
  end.

Definition is_JSON (text : string) : bool :=
  match scan_value (S (String.length text)) text with
  | Some k => match skip_ws k with EmptyString => true | String _ _ => false end
  | None => false
  end.

(** ** [JSON.parse]

    An object read exactly has no property name twice (JavaScript keeps
    the last value at the first place) and none made of digits only
    (JavaScript lists array indices first, in numeric order, whatever the
    order of the text). *)

Fixpoint all_digits (s : string) : bool :=
  match s with
  | EmptyString => true
  | String c r => is_digit c && all_digits r
  end.

Definition is_index (key : string) : bool :=
  match key with
  | EmptyString => false
  | String _ _ => all_digits key
  end.

Fixpoint distinct (keys : list string) : bool :=
  match keys with
  | [] => true
  | key :: rest => negb (existsb (String.eqb key) rest) && distinct rest
  end.

Fixpoint modelled (v : json) : bool :=
  match v with
  | JArray l => forallb modelled l
  | JObject l =>
      distinct (map fst l)
      && forallb (fun m => negb (is_index (fst m)) && modelled (snd m)) l
  | _ => true
  end.

(** What [JSON.parse] returns: a value read exactly, or the value of a
    JSON text outside the fragment, which is kept as that text and not
    looked into. *)
Inductive parsed : Type :=
  | Exact (v : json)
  | Other (text : string).

Coercion Exact : json >-> parsed.

(** [None] is the [SyntaxError] of [JSON.parse]. *)
Definition JSON_parse (text : string) : option parsed :=
  match parse_exact text with
  | Some v => Some (if modelled v then Exact v else Other text)
  | None => if is_JSON text then Some (Other text) else None
  end.

(** The integers a double holds without rounding, up to [2^53] either
    side of zero: within them an integer literal denotes itself. *)
Fixpoint safe_integers (v : json) : bool :=
  match v with
  | JNumber z => (Z.abs z <=? 2 ^ 53)%Z
  | JArray l => forallb safe_integers l
  | JObject l => forallb (fun m => safe_integers (snd m)) l
  | _ => true
  end.

Definition unrounded (value : parsed) : Prop :=
  match value with
  | Exact v => safe_integers v = true
  | Other _ => True
  end.

(** ** Measures used to reason about the parser *)

(** The first character written for a number, which routes [parse_value]
    to [parse_number]. *)
Definition starts_number (s : string) : bool :=
  match s with
  | String c _ => is_digit c || (c =? "-")%char
  | EmptyString => false
  end.

(** The number of values in a value, which bounds the fuel its text needs. *)
Fixpoint weight (v : json) : nat :=
  match v with
  | JArray l => S (list_sum (map weight l))
  | JObject l => S (list_sum (map (fun m => weight (snd m)) l))
  | _ => 1
  end.

(** A value that is read back from its own text. *)
Definition parses (v : json) : Prop :=
  forall fuel k, (weight v <= fuel)%nat -> number_follow k = true ->
    parse_value fuel (emit_value v k) = Some (v, k).

(** An object member as [emit_value] writes it. *)
Definition emit_member (m : string * json) (k : string) : string :=
  emit_string (fst m) (String ":" (emit_value (snd m) k)).

(** The text of a value is at least as long as the value is heavy. *)
Definition grows (v : json) : Prop :=
  forall k, (weight v + String.length k <= String.length (emit_value v k))%nat.

End Json.
Import Json.

(** * The progress record and its JSON form *)

Module Badge.
Record t : Type := mk {
    id : string;
    name : string;
    icon : string;
    earnedAt : string
  }.

Definition to_json (b : t) : json :=
    JObject [("id", JString (id b)); ("name", JString (name b));
             ("icon", JString (icon b)); ("earnedAt", JString (earnedAt b))].

Definition of_json (v : json) : option t :=
    match v with
    | JObject [(k1, JString i); (k2, JString n); (k3, JString c); (k4, JString e)] =>
        if String.eqb k1 "id" && String.eqb k2 "name" && String.eqb k3 "icon"
           && String.eqb k4 "earnedAt"
        then Some (mk i n c e) else None
    | _ => None
    end.
End Badge.

Module Progress.
Record t : Type := mk {
    completedProcedures : list string;
    badges : list Badge.t;
    soundEnabled : bool;
    visitCount : Z
  }.

Definition set_badges (bs : list Badge.t) (r : t) : t :=
    mk (completedProcedures r) bs (soundEnabled r) (visitCount r).

Definition set_soundEnabled (b : bool) (r : t) : t :=
    mk (completedProcedures r) (badges r) b (visitCount r).

  (** The object literal returned by [loadProgress] when nothing is stored. *)
Definition default : t := mk [] [] true 0.

  (** The record as the JSON value [JSON.stringify] sees: an object with
      the four properties in the order of the literal in [loadProgress]. *)
Definition to_json (r : t) : json :=
    JObject [("completedProcedures", JArray (map JString (completedProcedures r)));
             ("badges", JArray (map Badge.to_json (badges r)));
             ("soundEnabled", JBool (soundEnabled r));
             ("visitCount", JNumber (visitCount r))].

Definition string_of_json (v : json) : option string :=
    match v with JString s => Some s | _ => None end.

  (** The typed view of a parsed value.  Values of any other shape (other
      or extra properties, other property order, other types) are not
      progress records of this model. *)
Definition of_json (v : json) : option t :=
    match v with
    | JObject [(k1, JArray cs); (k2, JArray bs); (k3, JBool s); (k4, JNumber n)] =>
        if String.eqb k1 "completedProcedures" && String.eqb k2 "badges"
           && String.eqb k3 "soundEnabled" && String.eqb k4 "visitCount"
        then
          cs' ← mapM string_of_json cs;
          bs' ← mapM Badge.of_json bs;
          Some (mk cs' bs' s n)
        else None
    | _ => None
    end.
End Progress.

(** * The page and the controller *)

Inductive JsError : Type :=
  | SyntaxError
  | TypeError.

Inductive completion (A : Type) : Type :=
  | Normal (a : A)
  | Throw (e : JsError).
Arguments Normal {A} & a.
Arguments Throw {A} e.

(** A value assigned to [textContent] or [innerHTML]. *)
Inductive JsValue : Type :=
  | undefined
  | str (s : string).

Record Element : Type := mkElement {
  el_id : string;
  classList : gset string
}.

Record NavButton : Type := mkNavButton {
  data_section : string;
  nav_classList : gset string
}.

(** An element handed to the controller: one of the [.nav-btn] buttons, or
    an element whose classes are not followed here. *)
Inductive ElemRef : Type :=
  | NavBtn (i : nat)
  | OtherElement.

(** The part of the page the controller reads and writes.  The set of
    elements is fixed: [sections] are the [.content-section] elements (the
    ids of the form [<name>-section] belong to them), [navButtons] the
    [.nav-btn] elements; an optional field is [None] when the element is
    not in the page.  [querySelector] is the page's answer to
    [document.querySelector] for an attribute selector built from a
    string; selector text that is not valid raises [SyntaxError]. *)
Inductive ReadyState : Type :=
  | Loading
  | Interactive
  | Complete.

Record Dom : Type := mkDom {
  sections : list Element;
  navButtons : list NavButton;
  querySelector : string -> completion (option ElemRef);
  modal : option (gset string);            (* #procedure-modal, its classList *)
  modalTitle : option JsValue;             (* #modal-title, its textContent *)
  modalContent : option JsValue;           (* #procedure-content, its innerHTML *)
  bodyOverflow : string;                   (* document.body.style.overflow *)
  soundToggle : bool;                      (* #sound-toggle is in the page *)
  soundIcon : option string;               (* .sound-icon, its textContent *)
  progressRing : bool;                     (* #progress-ring-fill and #progress-percentage *)
  proceduresCompleted : option nat;        (* #procedures-completed, its textContent *)
  badgesEarned : option nat;               (* #badges-earned, its textContent *)
  badgesContainer : option (list (string * string));
                                           (* #badges-container: icon and name of each child *)
  readyState : ReadyState                  (* document.readyState *)
}.

Definition set_sections v (d : Dom) : Dom :=
  mkDom v (navButtons d) (querySelector d) (modal d) (modalTitle d) (modalContent d)
    (bodyOverflow d) (soundToggle d) (soundIcon d) (progressRing d)
    (proceduresCompleted d) (badgesEarned d) (badgesContainer d) (readyState d).
Definition set_navButtons v (d : Dom) : Dom :=
  mkDom (sections d) v (querySelector d) (modal d) (modalTitle d) (modalContent d)
    (bodyOverflow d) (soundToggle d) (soundIcon d) (progressRing d)
    (proceduresCompleted d) (badgesEarned d) (badgesContainer d) (readyState d).
Definition set_modal v (d : Dom) : Dom :=
  mkDom (sections d) (navButtons d) (querySelector d) v (modalTitle d) (modalContent d)
    (bodyOverflow d) (soundToggle d) (soundIcon d) (progressRing d)
    (proceduresCompleted d) (badgesEarned d) (badgesContainer d) (readyState d).
Definition set_modalTitle v (d : Dom) : Dom :=
  mkDom (sections d) (navButtons d) (querySelector d) (modal d) v (modalContent d)
    (bodyOverflow d) (soundToggle d) (soundIcon d) (progressRing d)
    (proceduresCompleted d) (badgesEarned d) (badgesContainer d) (readyState d).
Definition set_modalContent v (d : Dom) : Dom :=
  mkDom (sections d) (navButtons d) (querySelector d) (modal d) (modalTitle d) v
    (bodyOverflow d) (soundToggle d) (soundIcon d) (progressRing d)
    (proceduresCompleted d) (badgesEarned d) (badgesContainer d) (readyState d).
Definition set_bodyOverflow v (d : Dom) : Dom :=
  mkDom (sections d) (navButtons d) (querySelector d) (modal d) (modalTitle d) (modalContent d)
    v (soundToggle d) (soundIcon d) (progressRing d)
    (proceduresCompleted d) (badgesEarned d) (badgesContainer d) (readyState d).
Definition set_soundIcon v (d : Dom) : Dom :=
  mkDom (sections d) (navButtons d) (querySelector d) (modal d) (modalTitle d) (modalContent d)
    (bodyOverflow d) (soundToggle d) v (progressRing d)
    (proceduresCompleted d) (badgesEarned d) (badgesContainer d) (readyState d).
Definition set_proceduresCompleted v (d : Dom) : Dom :=
  mkDom (sections d) (navButtons d) (querySelector d) (modal d) (modalTitle d) (modalContent d)
    (bodyOverflow d) (soundToggle d) (soundIcon d) (progressRing d)
    v (badgesEarned d) (badgesContainer d) (readyState d).
Definition set_badgesEarned v (d : Dom) : Dom :=
  mkDom (sections d) (navButtons d) (querySelector d) (modal d) (modalTitle d) (modalContent d)
    (bodyOverflow d) (soundToggle d) (soundIcon d) (progressRing d)
    (proceduresCompleted d) v (badgesContainer d) (readyState d).
Definition set_badgesContainer v (d : Dom) : Dom :=
  mkDom (sections d) (navButtons d) (querySelector d) (modal d) (modalTitle d) (modalContent d)
    (bodyOverflow d) (soundToggle d) (soundIcon d) (progressRing d)
    (proceduresCompleted d) (badgesEarned d) v (readyState d).

(** A callback handed to [setTimeout] that touches the state followed
    here. *)
Inductive Callback : Type :=
  | ShowTargetSection (sectionName : string)
  | PlayTone (frequency : Z) (duration : Q) (type : string).

(** What the controller sends out: console lines, tones, the inline
    styles of the animations, and the badge notification, an element the
    controller creates and appends to the page outside the elements of
    [Dom]. *)
Inductive Effect : Type :=
  | ConsoleLog (message : string)
  | Tone (frequency : Z) (duration : Q) (type : string)
  | AnimateProcedureCards
  | AnimateTipCards
  | AnimateProgressRing (completionRate : Z)
  | BadgeNotification (badgeName badgeIcon : string).

(** The controller's fields ([this.currentSection], [this.soundEnabled],
    [this.userProgress]) together with the globals it works on. *)
Record State : Type := mkState {
  currentSection : string;
  soundEnabled : bool;
  userProgress : Progress.t;
  localStorage : gmap string string;
  document : Dom;
  timers : list (nat * Callback);
  trace : list Effect
}.

Definition set_currentSection v (s : State) : State :=
  mkState v (soundEnabled s) (userProgress s) (localStorage s) (document s) (timers s) (trace s).
Definition set_soundEnabled v (s : State) : State :=
  mkState (currentSection s) v (userProgress s) (localStorage s) (document s) (timers s) (trace s).
Definition set_userProgress v (s : State) : State :=
  mkState (currentSection s) (soundEnabled s) v (localStorage s) (document s) (timers s) (trace s).
Definition set_localStorage v (s : State) : State :=
  mkState (currentSection s) (soundEnabled s) (userProgress s) v (document s) (timers s) (trace s).
Definition set_document v (s : State) : State :=
  mkState (currentSection s) (soundEnabled s) (userProgress s) (localStorage s) v (timers s) (trace s).
Definition set_timers v (s : State) : State :=
  mkState (currentSection s) (soundEnabled s) (userProgress s) (localStorage s) (document s) v (trace s).
Definition set_trace v (s : State) : State :=
  mkState (currentSection s) (soundEnabled s) (userProgress s) (localStorage s) (document s) (timers s) v.

(** ** Methods run in a state and may throw *)

Definition M (A : Type) : Type := State -> completion A * State.

#[global] Instance M_ret : MRet M := fun A a s => (Normal a, s).
#[global] Instance M_bind : MBind M := fun A B f m s =>
  match m s with
  | (Normal a, s') => f a s'
  | (Throw e, s') => (Throw e, s')
  end.

Definition gets {A} (f : State -> A) : M A := fun s => (Normal (f s), s).
Definition modify (f : State -> State) : M unit := fun s => (Normal tt, f s).
Definition throw {A} (e : JsError) : M A := fun s => (Throw e, s).
Definition lift {A} (c : completion A) : M A := fun s => (c, s).
Definition update_document (f : Dom -> Dom) : M unit :=
  modify (fun s => set_document (f (document s)) s).

Definition outcome {A} (m : M A) (s : State) : completion A := fst (m s).
Definition exec {A} (m : M A) (s : State) : State := snd (m s).

Definition console_log (message : string) : M unit :=
  modify (fun s => set_trace (trace s ++ [ConsoleLog message])%list s).
Definition emit (e : Effect) : M unit :=
  modify (fun s => set_trace (trace s ++ [e])%list s).
Definition setTimeout (callback : Callback) (delay : nat) : M unit :=
  modify (fun s => set_timers (timers s ++ [(delay, callback)])%list s).

Definition classList_add (c : string) (cl : gset string) : gset string := {[c]} ∪ cl.
Definition classList_remove (c : string) (cl : gset string) : gset string := cl ∖ {[c]}.
Definition classList_contains (c : string) (cl : gset string) : bool := bool_decide (c ∈ cl).

Definition on_classList (f : gset string -> gset string) (e : Element) : Element :=
  mkElement (el_id e) (f (classList e)).
Definition on_nav_classList (f : gset string -> gset string) (b : NavButton) : NavButton :=
  mkNavButton (data_section b) (f (nav_classList b)).

(** [document.getElementById] for the ids of the form [<name>-section]:
    the first section with that id, with its position. *)
Definition getElementById (i : string) (d : Dom) : option (nat * Element) :=
  list_find (fun e => el_id e = i) (sections d).

(** [element.classList.add('active')] on a handed element. *)
Definition activate (r : ElemRef) : M unit :=
  match r with
  | NavBtn i =>
      update_document (fun d =>
        set_navButtons (alter (on_nav_classList (classList_add "active")) i (navButtons d)) d)
  | OtherElement => mret tt
  end.

(** ** Sound effects *)

(** [playTone]: returns at once when sound is off.  [Tone] records that
    the [try] block is entered; whether the browser then plays the tone or
    the [catch] branch logs that audio is unsupported is the platform's. *)
Definition playTone (frequency : Z) (duration : Q) (type : string) : M unit :=
  enabled ← gets soundEnabled;
  if negb enabled then mret tt else emit (Tone frequency duration type).

Definition playClickSound : M unit :=
  enabled ← gets soundEnabled;
  if (enabled : bool) then playTone 800 0.1 "sawtooth" else mret tt.

Definition playHoverSound : M unit :=
  enabled ← gets soundEnabled;
  if (enabled : bool) then playTone 600 0.05 "sine" else mret tt.

Definition playWelcomeSound : M unit :=
  enabled ← gets soundEnabled;
  if (enabled : bool) then
    setTimeout (PlayTone 523 0.2 "sine") 100;;
    setTimeout (PlayTone 659 0.2 "sine") 300;;
    setTimeout (PlayTone 784 0.2 "sine") 500
  else mret tt.

(** ** Progress display *)

(** [Math.round]: the nearest integer, halves upwards. *)
Definition Math_round (x : Q) : Z := Qfloor (x + 1 / 2).

(** [calculateCompletionRate].  The quotient and the product are exact in
    double arithmetic for any array length, so rationals give the same
    number. *)
Definition calculateCompletionRate (s : State) : Z :=
  let totalProcedures := 4%Z in
  let completed := Z.of_nat (length (Progress.completedProcedures (userProgress s))) in
  Math_round ((inject_Z completed / inject_Z totalProcedures) * 100).

Definition animateProcedureCards : M unit := emit AnimateProcedureCards.

Definition animateTipCards : M unit := emit AnimateTipCards.

(** [animateProgressCircle]: the ring is guarded by the presence of its
    two elements; the two counters are written without a guard. *)
Definition animateProgressCircle : M unit :=
  d ← gets document;
  (if progressRing d
   then completionRate ← gets calculateCompletionRate;
        emit (AnimateProgressRing completionRate)
   else mret tt);;
  completed ← gets (fun s => length (Progress.completedProcedures (userProgress s)));
  (match proceduresCompleted d with
   | Some _ => update_document (set_proceduresCompleted (Some completed))
   | None => throw TypeError
   end);;
  earned ← gets (fun s => length (Progress.badges (userProgress s)));
  match badgesEarned d with
  | Some _ => update_document (set_badgesEarned (Some earned))
  | None => throw TypeError
  end.

Definition animateBadges : M unit :=
  d ← gets document;
  match badgesContainer d with
  | None => mret tt
  | Some _ =>
      bs ← gets (fun s => Progress.badges (userProgress s));
      update_document
        (set_badgesContainer (Some (map (fun b => (Badge.icon b, Badge.name b)) bs)))
  end.

Definition triggerSectionAnimations (sectionName : string) : M unit :=
  d ← gets document;
  match getElementById (sectionName ++ "-section") d with
  | None => mret tt
  | Some _ =>
      if String.eqb sectionName "procedures" then animateProcedureCards
      else if String.eqb sectionName "progress" then animateProgressCircle;; animateBadges
      else if String.eqb sectionName "tips" then animateTipCards
      else mret tt
  end.

Definition updateProgressDisplay : M unit :=
  d ← gets document;
  match getElementById "progress-section" d with
  | Some (_, progressSection) =>
      if classList_contains "active" (classList progressSection)
      then animateProgressCircle;; animateBadges
      else mret tt
  | None => mret tt
  end.

(** ** Navigation *)

(** In a template, [@] stands for the double quote character. *)
Definition markup (template : string) : string :=
  string_of_list_ascii
    (map (fun c => if (c =? "@")%char then quote else c) (list_ascii_of_string template)).

(** [navigateToSection(sectionName, activeButton = null)]. *)
Definition navigateToSection (sectionName : string) (activeButton : option ElemRef) : M unit :=
  modify (set_currentSection sectionName);;
  update_document (fun d =>
    set_navButtons (map (on_nav_classList (classList_remove "active")) (navButtons d)) d);;
  (match activeButton with
   | Some button => activate button
   | None =>
       d ← gets document;
       targetButton ← lift (querySelector d
                              (markup "[data-section=@" ++ sectionName ++ markup "@]"));
       match targetButton with
       | Some button => activate button
       | None => mret tt
       end
   end);;
  update_document (fun d =>
    set_sections
      (map (on_classList (fun cl => classList_add "animate-fadeOut" (classList_remove "active" cl)))
           (sections d)) d);;
  setTimeout (ShowTargetSection sectionName) 200;;
  playClickSound;;
  console_log ("📍 Navigated to: " ++ sectionName).

(** The callbacks, when their timer fires. *)
Definition fire (callback : Callback) : M unit :=
  match callback with
  | ShowTargetSection sectionName =>
      d ← gets document;
      match getElementById (sectionName ++ "-section") d with
      | Some (i, _) =>
          update_document (fun d =>
            set_sections
              (alter (on_classList (fun cl =>
                        classList_add "animate-fadeIn" (classList_add "active" cl))) i
                 (map (on_classList (classList_remove "animate-fadeOut")) (sections d))) d);;
          triggerSectionAnimations sectionName
      | None => mret tt
      end
  | PlayTone frequency duration type => playTone frequency duration type
  end.

(** ** Progress store *)

(** [loadProgress], on the storage it reads.  The empty string is falsy,
    like a missing item; what [JSON.parse] returns is returned as it
    is. *)
Definition loadProgress (storage : gmap string string) : completion parsed :=
  match storage !! "dentalKidsProgress" with
  | Some savedProgress =>
      if String.eqb savedProgress "" then Normal (Exact (Progress.to_json Progress.default))
      else match JSON_parse savedProgress with
           | Some value => Normal value
           | None => Throw SyntaxError
           end
  | None => Normal (Exact (Progress.to_json Progress.default))
  end.

Definition saveProgress : M unit :=
  modify (fun s =>
    set_userProgress (Progress.set_soundEnabled (soundEnabled s) (userProgress s)) s);;
  modify (fun s =>
    set_localStorage
      (<["dentalKidsProgress" := JSON_stringify (Progress.to_json (userProgress s))]>
         (localStorage s)) s).

(** ** Sound toggle *)

(** The click listener that [setupSoundToggle] puts on [#sound-toggle]
    when that element and [.sound-icon] are in the page. *)
Definition toggleSound : M unit :=
  d ← gets document;
  match soundToggle d, soundIcon d with
  | true, Some _ =>
      modify (fun s => set_soundEnabled (negb (soundEnabled s)) s);;
      enabled ← gets soundEnabled;
      update_document (set_soundIcon (Some (if (enabled : bool) then "🔊" else "🔇")));;
      saveProgress;;
      console_log ("🔊 Sound " ++ (if (enabled : bool) then "enabled" else "disabled"))
  | _, _ => mret tt
  end.

(** ** Procedure modal *)

Record ProcedureData : Type := mkProcedureData {
  title : string;
  content : string
}.

Definition cleaning_content : string := markup
"
                    <div class=@procedure-steps@>
                        <div class=@step-indicator@>Step 1 of 3: SHOW</div>
                        <div class=@procedure-animation@>
                            <div class=@tooth-demo@>🦷</div>
                            <div class=@brush-demo@>🪥</div>
                        </div>
                        <h3>Let me show you how we clean teeth!</h3>
                        <p>Watch as the special dental brush gently cleans around your tooth. It might tickle a little, but it doesn't hurt!</p>
                        <button class=@next-step-btn@ onclick=@app.nextProcedureStep('cleaning', 'tell')@>
                            Tell Me More! 📚
                        </button>
                    </div>
                ".

Definition cleaning_entry : ProcedureData :=
  {| title := "🪥 Tooth Cleaning Adventure"; content := cleaning_content |}.

Definition xray_content : string := markup
"
                    <div class=@procedure-steps@>
                        <div class=@step-indicator@>Step 1 of 3: SHOW</div>
                        <div class=@procedure-animation@>
                            <div class=@xray-demo@>📸✨</div>
                        </div>
                        <h3>X-rays give us superhero vision!</h3>
                        <p>Just like Superman can see through walls, X-rays help us see inside your teeth to make sure they're healthy!</p>
                        <button class=@next-step-btn@ onclick=@app.nextProcedureStep('xray', 'tell')@>
                            Tell Me More! 📚
                        </button>
                    </div>
                ".

Definition xray_entry : ProcedureData :=
  {| title := "📸 X-Ray Superhero Vision"; content := xray_content |}.

Definition filling_content : string := markup
"
                    <div class=@procedure-steps@>
                        <div class=@step-indicator@>Step 1 of 3: SHOW</div>
                        <div class=@procedure-animation@>
                            <div class=@filling-demo@>🦷🔧</div>
                        </div>
                        <h3>We're tooth repair heroes!</h3>
                        <p>Sometimes teeth get tiny holes called cavities. We fix them with special tooth-colored material, just like fixing a wall!</p>
                        <button class=@next-step-btn@ onclick=@app.nextProcedureStep('filling', 'tell')@>
                            Tell Me More! 📚
                        </button>
                    </div>
                ".

Definition filling_entry : ProcedureData :=
  {| title := "🔧 Cavity Filling Hero Mission"; content := filling_content |}.

Definition checkup_content : string := markup
"
                    <div class=@procedure-steps@>
                        <div class=@step-indicator@>Step 1 of 3: SHOW</div>
                        <div class=@procedure-animation@>
                            <div class=@checkup-demo@>🔍🦷</div>
                        </div>
                        <h3>Let's go on a treasure hunt in your mouth!</h3>
                        <p>We use a special mirror and light to explore every tooth, looking for hidden problems before they become big ones!</p>
                        <button class=@next-step-btn@ onclick=@app.nextProcedureStep('checkup', 'tell')@>
                            Tell Me More! 📚
                        </button>
                    </div>
                ".

Definition checkup_entry : ProcedureData :=
  {| title := "🔍 Dental Treasure Hunt"; content := checkup_content |}.

Definition help_content : string := markup
"
                <div class=@help-content@>
                    <h3>How to use Dental Kids App:</h3>
                    <ul>
                        <li>🏠 <strong>Home:</strong> Start your dental adventure here</li>
                        <li>🔧 <strong>Procedures:</strong> Learn about dental treatments</li>
                        <li>🏆 <strong>Progress:</strong> See your brave badges and achievements</li>
                        <li>💡 <strong>Tips:</strong> Learn how to keep your teeth healthy</li>
                    </ul>
                    
                    <h3>In each procedure you will:</h3>
                    <div class=@help-steps@>
                        <div class=@help-step@>
                            <span class=@step-number@>1</span>
                            <strong>SHOW:</strong> Watch what happens
                        </div>
                        <div class=@help-step@>
                            <span class=@step-number@>2</span>
                            <strong>TELL:</strong> Learn all about it
                        </div>
                        <div class=@help-step@>
                            <span class=@step-number@>3</span>
                            <strong>DO:</strong> Practice it yourself
                        </div>
                    </div>
                    
                    <button class=@help-close-btn@ onclick=@app.closeModal()@>
                        Got it! 👍
                    </button>
                </div>
            ".

(** What [procedures[key]] evaluates to.  [procedures] is an object
    literal, so besides its four own entries a key can name a member that
    every object inherits from [Object.prototype]; such a member is a
    function or an object, hence truthy, and has neither [title] nor
    [content]. *)
Inductive Property : Type :=
  | Own (data : ProcedureData)
  | Inherited (key : string)
  | Missing.

Definition Object_prototype : list string :=
  ["constructor"; "hasOwnProperty"; "isPrototypeOf"; "propertyIsEnumerable";
   "toLocaleString"; "toString"; "valueOf"; "__proto__"; "__defineGetter__";
   "__defineSetter__"; "__lookupGetter__"; "__lookupSetter__"].

Definition procedures (key : string) : Property :=
  if String.eqb key "cleaning" then Own cleaning_entry
  else if String.eqb key "xray" then Own xray_entry
  else if String.eqb key "filling" then Own filling_entry
  else if String.eqb key "checkup" then Own checkup_entry
  else if existsb (String.eqb key) Object_prototype then Inherited key
  else Missing.

(** [procedures[procedureType] || procedures.cleaning]. *)
Definition getProcedureData (procedureType : string) : Property :=
  match procedures procedureType with
  | Missing => procedures "cleaning"
  | found => found
  end.

Definition title_of (procedureData : Property) : JsValue :=
  match procedureData with
  | Own data => str (title data)
  | _ => undefined
  end.

Definition content_of (procedureData : Property) : JsValue :=
  match procedureData with
  | Own data => str (content data)
  | _ => undefined
  end.

Definition showProcedureModal (procedureType : string) : M unit :=
  d ← gets document;
  match modal d, modalTitle d, modalContent d with
  | Some _, Some _, Some _ =>
      let procedureData := getProcedureData procedureType in
      update_document (set_modalTitle (Some (title_of procedureData)));;
      update_document (set_modalContent (Some (content_of procedureData)));;
      update_document (fun d => set_modal (classList_add "show" <$> modal d) d);;
      update_document (set_bodyOverflow "hidden");;
      console_log ("📱 Opened modal for: " ++ procedureType)
  | _, _, _ => mret tt
  end.

Definition closeModal : M unit :=
  d ← gets document;
  match modal d with
  | Some _ =>
      update_document (fun d => set_modal (classList_remove "show" <$> modal d) d);;
      update_document (set_bodyOverflow "");;
      playClickSound;;
      console_log "📱 Modal closed"
  | None => mret tt
  end.

(** [startProcedure].  The scale-up class put on the card is visual only;
    the query for the card is kept because it can throw. *)
Definition startProcedure (procedureType : string) : M unit :=
  console_log ("🦷 Starting procedure: " ++ procedureType);;
  playClickSound;;
  showProcedureModal procedureType;;
  d ← gets document;
  card ← lift (querySelector d (markup "[data-procedure=@" ++ procedureType ++ markup "@]"));
  mret tt.

Definition getProcedureStepContent (procedureType step : string) : string :=
  markup "<div class=@step-content@>Step " ++ step ++ " content for "
    ++ procedureType ++ "</div>".

Definition nextProcedureStep (procedureType step : string) : M unit :=
  d ← gets document;
  match modalContent d with
  | None => mret tt
  | Some _ =>
      let stepContent := getProcedureStepContent procedureType step in
      update_document (set_modalContent (Some (str stepContent)));;
      playClickSound;;
      console_log ("📖 Showing " ++ step ++ " step for " ++ procedureType)
  end.

Definition showHelpModal : M unit :=
  d ← gets document;
  match modal d, modalTitle d, modalContent d with
  | Some _, Some _, Some _ =>
      update_document (set_modalTitle (Some (str "❓ Help & Instructions")));;
      update_document (set_modalContent (Some (str help_content)));;
      update_document (fun d => set_modal (classList_add "show" <$> modal d) d);;
      update_document (set_bodyOverflow "hidden");;
      playClickSound
  | _, _, _ => mret tt
  end.

(** ** Badges *)

(** [showBadgeNotification]: the notification is a new element appended
    to [document.body].  It is none of the elements of [Dom], so the
    append is recorded in the trace as [BadgeNotification], and the timers
    of its lifetime, which touch that element only, are left out; then the
    welcome melody. *)
Definition showBadgeNotification (badgeName badgeIcon : string) : M unit :=
  emit (BadgeNotification badgeName badgeIcon);;
  playWelcomeSound.

(** [awardBadge(badgeId, badgeName, badgeIcon)]; [now] is what
    [new Date().toISOString()] returns at the call. *)
Definition awardBadge (badgeId badgeName badgeIcon : string) (now : string) : M unit :=
  bs ← gets (fun s => Progress.badges (userProgress s));
  match find (fun b => String.eqb (Badge.id b) badgeId) bs with
  | Some _ => mret tt
  | None =>
      modify (fun s =>
        set_userProgress
          (Progress.set_badges
             (Progress.badges (userProgress s) ++ [Badge.mk badgeId badgeName badgeIcon now])%list
             (userProgress s)) s);;
      saveProgress;;
      showBadgeNotification badgeName badgeIcon;;
      console_log ("🏆 Badge awarded: " ++ badgeName)
  end.

(** ** Start-up *)

(** [init].  The loading screen is visual, and the [setup...] calls only
    register the listeners, which are the methods above. *)
Definition init : M unit :=
  console_log "🦷 Dental Kids App initializing...";;
  updateProgressDisplay;;
  playWelcomeSound;;
  console_log "✅ App initialized successfully!".

(** The result of [new DentalKidsApp()] on a page.  The constructor
    sets the three fields and then looks at [document.readyState]: while
    the document is loading it registers [init] for [DOMContentLoaded] and
    returns ([Deferred], with the state [init] will start from); otherwise
    it calls [init] itself, and returns when [init] returns ([Built]) or
    throws what [init] throws ([Crashed], as when [loadProgress] throws).
    The controller's record is typed here: when the stored value is not a
    progress record in the form [saveProgress] writes, the controller
    holds a value that [State] does not describe, and the answer is
    [NotARecord] whatever the constructor then does. *)
Inductive Constructed : Type :=
  | Built (s : State)
  | Deferred (s : State)
  | Crashed (e : JsError)
  | NotARecord (value : parsed).

Definition typed (value : parsed) : option Progress.t :=
  match value with
  | Exact v => Progress.of_json v
  | Other _ => None
  end.

Definition constructor (storage : gmap string string) (page : Dom) : Constructed :=
  match loadProgress storage with
  | Throw e => Crashed e
  | Normal value =>
      match typed value with
      | Some progress =>
          let s := mkState "home" true progress storage page [] [] in
          match readyState page with
          | Loading => Deferred s
          | _ => match outcome init s with
                 | Normal _ => Built (exec init s)
                 | Throw e => Crashed e
                 end
          end
      | None => NotARecord value
      end
  end.

(** A reload of the page: a new controller over the same storage. *)
Definition reload (s : State) : Constructed := constructor (localStorage s) (document s).

(** ** What can happen to a running controller *)

Inductive Intent : Type :=
  | Navigate (sectionName : string) (activeButton : option ElemRef)
  | StartProcedure (procedureType : string)
  | OpenProcedure (procedureType : string)
  | AdvanceStep (procedureType step : string)
  | CloseModal
  | Help
  | ToggleSound
  | Hover
  | Save
  | AwardBadge (badgeId badgeName badgeIcon now : string)
  | RefreshProgress
  | TimerFires (i : nat).

Definition handle (intent : Intent) : M unit :=
  match intent with
  | Navigate sectionName activeButton => navigateToSection sectionName activeButton
  | StartProcedure procedureType => startProcedure procedureType
  | OpenProcedure procedureType => showProcedureModal procedureType
  | AdvanceStep procedureType step => nextProcedureStep procedureType step
  | CloseModal => closeModal
  | Help => showHelpModal
  | ToggleSound => toggleSound
  | Hover => playHoverSound
  | Save => saveProgress
  | AwardBadge badgeId badgeName badgeIcon now => awardBadge badgeId badgeName badgeIcon now
  | RefreshProgress => updateProgressDisplay
  | TimerFires i =>
      ts ← gets timers;
      match ts !! i with
      | Some (_, callback) => modify (set_timers (delete i ts));; fire callback
      | None => mret tt
      end
  end.

(** An exception ends the handler that raised it; the page goes on with
    the state as the handler left it. *)
Definition run (intents : list Intent) (s : State) : State :=
  fold_left (fun s intent => exec (handle intent) s) intents s.

(** ** A page to run the controller on *)

Definition sample_querySelector (selector : string) : completion (option ElemRef) :=
  if String.eqb selector (markup "[data-section=@home@]") then Normal (Some (NavBtn 0))
  else if String.eqb selector (markup "[data-section=@procedures@]") then Normal (Some (NavBtn 1))
  else if String.eqb selector (markup "[data-section=@progress@]") then Normal (Some (NavBtn 2))
  else if String.eqb selector (markup "[data-section=@tips@]") then Normal (Some (NavBtn 3))
  else if String.eqb selector (markup "[data-procedure=@cleaning@]") then Normal (Some OtherElement)
  else Normal None.

Definition sample_page : Dom := {|
  sections := [mkElement "home-section" {["content-section"; "active"]};
               mkElement "procedures-section" {["content-section"]};
               mkElement "progress-section" {["content-section"]};
               mkElement "tips-section" {["content-section"]}];
  navButtons := [mkNavButton "home" {["nav-btn"; "active"]};
                 mkNavButton "procedures" {["nav-btn"]};
                 mkNavButton "progress" {["nav-btn"]};
                 mkNavButton "tips" {["nav-btn"]}];
  querySelector := sample_querySelector;
  modal := Some {["modal"]};
  modalTitle := Some (str "");
  modalContent := Some (str "");
  bodyOverflow := "";
  soundToggle := true;
  soundIcon := Some "🔊";
  progressRing := true;
  proceduresCompleted := Some 0%nat;
  badgesEarned := Some 0%nat;
  badgesContainer := Some [];
  readyState := Complete
|}.

(** * Definitions used to state the properties *)

Definition storage_key : string := "dentalKidsProgress".

(** The completion rate in the words of the specification:
    round(100 x |completedProcedures| / totalProcedureCount), with the
    count of procedures fixed at 4. *)
Definition totalProcedureCount : Z := 4.
Definition spec_completion_rate (r : Progress.t) : Z :=
  Math_round (100 * inject_Z (Z.of_nat (length (Progress.completedProcedures r)))
              / inject_Z totalProcedureCount).

Definition with_completed (cs : list string) (s : State) : State :=
  set_userProgress
    (Progress.mk cs (Progress.badges (userProgress s))
       (Progress.soundEnabled (userProgress s)) (Progress.visitCount (userProgress s))) s.

Definition badge_ids (r : Progress.t) : list string := map Badge.id (Progress.badges r).

Definition count_id (i : string) (r : Progress.t) : nat :=
  length (filter (fun b => Badge.id b = i) (Progress.badges r)).

Definition modal_open (s : State) : bool :=
  match modal (document s) with
  | Some cl => classList_contains "show" cl
  | None => false
  end.

Definition fresh_state : State :=
  exec init (mkState "home" true Progress.default ∅ sample_page [] []).

(** The controller after the sound was switched off and the page was
    loaded again. *)
Definition muted_then_reloaded : State :=
  match reload (run [ToggleSound] fresh_state) with
  | Built s => s
  | _ => fresh_state
  end.

(** A method keeps a relation when the state it leaves is related to the
    state it started in, whether it returns or throws. *)
Definition preserves (R : State -> State -> Prop) {A} (m : M A) : Prop :=
  forall s, R s (exec m s).

(** The state the three progress-writing methods and the page methods
    agree on: the store and the sound flag. *)
Definition same_store (s s' : State) : Prop :=
  userProgress s' = userProgress s
  /\ localStorage s' = localStorage s
  /\ soundEnabled s' = soundEnabled s.

Definition same_completed_and_visits (s s' : State) : Prop :=
  Progress.completedProcedures (userProgress s') = Progress.completedProcedures (userProgress s)
  /\ Progress.visitCount (userProgress s') = Progress.visitCount (userProgress s).

Definition keeps_unique_ids (s s' : State) : Prop :=
  NoDup (badge_ids (userProgress s)) -> NoDup (badge_ids (userProgress s')).

(** The modal on the third step of the cleaning procedure. *)
Definition at_do_step : State :=
  run [OpenProcedure "cleaning"; AdvanceStep "cleaning" "tell"; AdvanceStep "cleaning" "do"]
      fresh_state.

Definition section_selector (sectionName : string) : string :=
  markup "[data-section=@" ++ sectionName ++ markup "@]".

Definition no_section_active (s : State) : Prop :=
  Forall (fun el => "active" ∉ classList el) (sections (document s)).

Arguments JSON_stringify : simpl never.
Arguments JSON_parse : simpl never.
Arguments classList_add : simpl never.
Arguments classList_remove : simpl never.
Arguments classList_contains : simpl never.
Arguments markup : simpl never.

(** ** Definitions for the further properties *)

Definition is_tone (e : Effect) : bool :=
  match e with Tone _ _ _ => true | _ => false end.

(** The tones among the effects sent out so far. *)
Definition tones (effects : list Effect) : list Effect :=
  filter (fun e => is_tone e = true) effects.

(** While the sound is off it stays off and no tone is added. *)
Definition stays_silent (s s' : State) : Prop :=
  soundEnabled s = false ->
  soundEnabled s' = false /\ tones (trace s') = tones (trace s).

Definition is_toggle (intent : Intent) : bool :=
  match intent with ToggleSound => true | _ => false end.

Definition is_navigate (intent : Intent) : bool :=
  match intent with Navigate _ _ => true | _ => false end.

Definition badges_grow (s s' : State) : Prop :=
  exists more, Progress.badges (userProgress s')
               = (Progress.badges (userProgress s) ++ more)%list.

Definition other_keys_kept (s s' : State) : Prop :=
  forall k, k <> storage_key -> localStorage s' !! k = localStorage s !! k.

(** [loadProgress] returns on the storage of the state. *)
Definition loadable (s : State) : Prop :=
  exists value, loadProgress (localStorage s) = Normal value.

Definition stays_loadable (s s' : State) : Prop := loadable s -> loadable s'.

Definition same_section (s s' : State) : Prop := currentSection s' = currentSection s.

(** The three timers of [playWelcomeSound]. *)
Definition welcome_melody : list (nat * Callback) :=
  [(100%nat, PlayTone 523 0.2 "sine"); (300%nat, PlayTone 659 0.2 "sine");
   (500%nat, PlayTone 784 0.2 "sine")].

(** What the modal shows and whether the page scrolls. *)
Definition same_modal (s s' : State) : Prop :=
  modal (document s') = modal (document s)
  /\ modalTitle (document s') = modalTitle (document s)
  /\ modalContent (document s') = modalContent (document s)
  /\ bodyOverflow (document s') = bodyOverflow (document s).

Definition same_view (s s' : State) : Prop :=
  sections (document s') = sections (document s)
  /\ navButtons (document s') = navButtons (document s)
  /\ currentSection s' = currentSection s.

(** The class changes of the navigation: what [navigateToSection] does to
    each section, and what the callback does to the target and to the
    others. *)
Definition fade_out (cl : gset string) : gset string :=
  classList_add "animate-fadeOut" (classList_remove "active" cl).
Definition fade_in (cl : gset string) : gset string :=
  classList_add "animate-fadeIn" (classList_add "active" cl).
Definition settle (cl : gset string) : gset string :=
  classList_remove "animate-fadeOut" cl.

Definition is_active (el : Element) : Prop := "active" ∈ classList el.

(** The sound button's icon, and what is behind it. *)
Definition same_sound (s s' : State) : Prop :=
  soundIcon (document s') = soundIcon (document s)
  /\ soundToggle (document s') = soundToggle (document s)
  /\ soundEnabled s' = soundEnabled s.

Definition icon_shows_flag (s : State) : Prop :=
  forall icon, soundIcon (document s) = Some icon ->
               icon = if soundEnabled s then "🔊" else "🔇".

(** A page on which the progress display throws: the progress section is
    shown and one of the two counters is missing. *)
Definition progress_display_broken (d : Dom) : Prop :=
  exists i el, getElementById "progress-section" d = Some (i, el)
               /\ is_active el
               /\ (proceduresCompleted d = None \/ badgesEarned d = None).

(** * Properties *)

Module JsonFacts.
Import Json.

(** Induction over [json] that reaches the values nested in arrays and
    objects. *)
Lemma json_nested_ind (P : json -> Prop) :
  P JNull ->
  (forall b, P (JBool b)) ->
  (forall z, P (JNumber z)) ->
  (forall s, P (JString s)) ->
  (forall l, Forall P l -> P (JArray l)) ->
  (forall l, Forall (fun m => P (snd m)) l -> P (JObject l)) ->
  forall v, P v.
Proof.
  intros Hnull Hbool Hnum Hstr Harr Hobj.
  fix IH 1. intros [ | b | z | s | l | l ].
  - exact Hnull.
  - apply Hbool.
  - apply Hnum.
  - apply Hstr.
  - apply Harr. induction l as [ | v l IHl ]; constructor; [ apply IH | exact IHl ].
  - apply Hobj. induction l as [ | m l IHl ]; constructor; [ apply IH | exact IHl ].
Qed.

Lemma length_append (a b : string) :
  String.length (a ++ b) = (String.length a + String.length b)%nat.
Proof. induction a as [ | c a IH ]; simpl; [ reflexivity | now rewrite IH ]. Qed.

Lemma skip_ws_nonws (c : ascii) (r : string) :
  is_ws c = false -> skip_ws (String c r) = String c r.
Proof. intros H. simpl. now rewrite H. Qed.

(** *** Strings *)

Lemma parse_chars_escape (c : ascii) (k : string) :
  parse_chars (escape_char c k) = prepend c (parse_chars k).
Proof.
  destruct c as [[] [] [] [] [] [] [] []]; reflexivity.
Qed.

Lemma parse_chars_emit (s k : string) :
  parse_chars (emit_chars s (String quote k)) = Some (s, k).
Proof.
  induction s as [ | c s IH ]; simpl.
  - reflexivity.
  - rewrite parse_chars_escape, IH. reflexivity.
Qed.

(** *** Numbers *)

Lemma span_digits_uint (d : Decimal.uint) (k : string) :
  match k with String c _ => is_digit c = false | EmptyString => True end ->
  span_digits (NilEmpty.string_of_uint d ++ k) = (NilEmpty.string_of_uint d, k).
Proof.
  intros Hk. induction d as [ | d IH | d IH | d IH | d IH | d IH | d IH | d IH | d IH | d IH | d IH ];
    simpl; try (rewrite IH; reflexivity).
  destruct k as [ | c k ]; simpl; [ reflexivity | now rewrite Hk ].
Qed.

Lemma number_follow_not_digit (k : string) :
  number_follow k = true ->
  match k with String c _ => is_digit c = false | EmptyString => True end.
Proof.
  destruct k as [ | c k ]; simpl; [ trivial | ].
  intros H. apply negb_true_iff in H. apply orb_false_iff in H as [H _].
  apply orb_false_iff in H as [H _]. apply orb_false_iff in H as [H _]. exact H.
Qed.

Lemma to_uint_normal (n : N) : Decimal.unorm (N.to_uint n) = N.to_uint n.
Proof.
  rewrite <- (DecimalN.Unsigned.to_of (N.to_uint n)).
  now rewrite DecimalN.Unsigned.of_to.
Qed.

Lemma normal_D0 (d : Decimal.uint) : Decimal.unorm (Decimal.D0 d) = Decimal.D0 d -> d = Decimal.Nil.
Proof.
  intros H. rewrite DecimalFacts.unorm_D0 in H. unfold Decimal.unorm in H.
  destruct (Decimal.nzhead d) eqn:E; try discriminate.
  - now inversion H.
  - exfalso. exact (DecimalFacts.nzhead_nonzero d _ E).
Qed.

Lemma no_leading_zero (d : Decimal.uint) :
  Decimal.unorm d = d ->
  match NilEmpty.string_of_uint d with
  | EmptyString => False
  | String c r => (c =? "0")%char && negb (String.eqb r EmptyString) = false
  end.
Proof.
  intros Hn. destruct d as [ | d | d | d | d | d | d | d | d | d | d ]; try reflexivity.
  - revert Hn. apply DecimalFacts.unorm_nonnil.
  - apply normal_D0 in Hn. subst d. reflexivity.
Qed.

Lemma parse_digits_emit (n : N) (k : string) :
  number_follow k = true ->
  parse_digits (NilEmpty.string_of_uint (N.to_uint n) ++ k) = Some (n, k).
Proof.
  intros Hk. unfold parse_digits.
  rewrite span_digits_uint by now apply number_follow_not_digit.
  pose proof (no_leading_zero _ (to_uint_normal n)) as Hz.
  pose proof (NilEmpty.usu (N.to_uint n)) as Hu.
  destruct (NilEmpty.string_of_uint (N.to_uint n)) as [ | c r ]; [ contradiction | ].
  rewrite Hz, Hk, Hu. simpl. now rewrite DecimalN.Unsigned.of_to.
Qed.

Lemma parse_number_emit (z : Z) (k : string) :
  number_follow k = true ->
  parse_number (emit_number z k) = Some (z, k).
Proof.
  intros Hk. unfold emit_number. destruct (Z.ltb_spec z 0) as [Hneg | Hpos].
  - cbn [parse_number Ascii.eqb Bool.eqb]. rewrite parse_digits_emit by assumption.
    cbn [mbind option_bind].
    destruct (N.eqb_spec (Z.abs_N z) 0) as [E | _]; [ lia | ].
    do 2 f_equal. rewrite N2Z.inj_abs_N. lia.
  - pose proof (parse_digits_emit (Z.to_N z) k Hk) as Hd.
    pose proof (no_leading_zero _ (to_uint_normal (Z.to_N z))) as Hz.
    unfold parse_number.
    destruct (NilEmpty.string_of_uint (N.to_uint (Z.to_N z)) ++ k) as [ | c r ] eqn:E.
    + destruct (NilEmpty.string_of_uint (N.to_uint (Z.to_N z))); [ contradiction | discriminate ].
    + assert (Hc : (c =? "-")%char = false).
      { unfold parse_digits in Hd. simpl in Hd.
        destruct (c =? "-")%char eqn:Ec; [ | reflexivity ].
        apply Ascii.eqb_eq in Ec. subst c. simpl in Hd. discriminate. }
      rewrite Hc, Hd. simpl. do 2 f_equal. lia.
Qed.

Lemma emit_number_starts (z : Z) (k : string) : starts_number (emit_number z k) = true.
Proof.
  unfold emit_number. destruct (z <? 0)%Z; [ reflexivity | ].
  pose proof (to_uint_normal (Z.to_N z)) as Hn.
  destruct (N.to_uint (Z.to_N z)); try reflexivity.
  exfalso. revert Hn. apply DecimalFacts.unorm_nonnil.
Qed.

Lemma parse_value_number (fuel : nat) (s : string) :
  starts_number s = true ->
  parse_value (S fuel) s = '(z, k) ← parse_number s; Some (JNumber z, k).
Proof.
  destruct s as [ | c r ]; [ discriminate | ].
  destruct c as [[] [] [] [] [] [] [] []]; try discriminate; intros _; reflexivity.
Qed.

(** *** Values *)

Lemma weight_pos (v : json) : (1 <= weight v)%nat.
Proof. destruct v; simpl; lia. Qed.

Lemma number_follow_sep {A} (emit : A -> string -> string) (close : ascii) xs k :
  number_follow (String close k) = true ->
  number_follow (sep_by emit xs (String close k)) = true.
Proof. destruct xs; [ trivial | reflexivity ]. Qed.

Lemma parse_elements_emit (f : nat) (xs : list json) :
  Forall parses xs ->
  forall x n k, parses x ->
    (weight x + list_sum (map weight xs) <= f)%nat ->
    (S (length xs) <= n)%nat ->
    parse_elements (parse_value f) n (emit_value x (sep_by emit_value xs (String "]" k)))
    = Some (x :: xs, k).
Proof.
  induction 1 as [ | y ys Hy Hys IH ]; intros x n k Hx Hw Hn.
  - destruct n as [ | n ]; [ lia | ]. simpl in *.
    rewrite Hx by (reflexivity || lia). reflexivity.
  - destruct n as [ | n ]; [ simpl in Hn; lia | ]. simpl in Hw, Hn.
    cbn [parse_elements sep_by].
    rewrite Hx by (reflexivity || lia). cbn [mbind option_bind].
    rewrite skip_ws_nonws by reflexivity.
    change ("," =? ",")%char with true. cbv iota.
    rewrite IH by (assumption || lia). reflexivity.
Qed.

Ltac next_char :=
  repeat first
    [ rewrite skip_ws_nonws by reflexivity
    | rewrite Ascii.eqb_refl
    | progress cbn [Ascii.eqb Bool.eqb andb mbind option_bind] ].

Lemma parse_members_emit (f : nat) (xs : list (string * json)) :
  Forall (fun m => parses (snd m)) xs ->
  forall x n k, parses (snd x) ->
    (weight (snd x) + list_sum (map (fun m => weight (snd m)) xs) <= f)%nat ->
    (S (length xs) <= n)%nat ->
    parse_members (parse_value f) n (emit_member x (sep_by emit_member xs (String "}" k)))
    = Some (x :: xs, k).
Proof.
  induction 1 as [ | y ys Hy Hys IH ]; intros [key v] n k Hx Hw Hn;
    (destruct n as [ | n ]; [ simpl in Hn; lia | ]); simpl in Hw, Hn, Hx;
    cbn [parse_members sep_by]; unfold emit_member at 1, emit_string; cbn [fst snd]; next_char;
    rewrite parse_chars_emit; next_char;
    (rewrite Hx by (reflexivity || lia)); next_char.
  - reflexivity.
  - fold (emit_string (fst y) (String ":" (emit_value (snd y) (sep_by emit_member ys (String "}" k))))).
    fold (emit_member y (sep_by emit_member ys (String "}" k))).
    rewrite IH by (assumption || lia). reflexivity.
Qed.

Lemma emit_value_head (v : json) (k : string) :
  exists c r, emit_value v k = String c r /\ is_ws c = false.
Proof.
  destruct v as [ | [] | z | s | l | l ]; try (eexists _, _; split; reflexivity).
  pose proof (emit_number_starts z k) as H. simpl.
  destruct (emit_number z k) as [ | c r ]; [ discriminate | ].
  exists c, r. split; [ reflexivity | ].
  destruct c as [[] [] [] [] [] [] [] []]; try discriminate H; reflexivity.
Qed.

Lemma elements_weight (l : list json) : (length l <= list_sum (map weight l))%nat.
Proof.
  induction l as [ | x l IH ]; simpl; [ lia | ]. pose proof (weight_pos x). lia.
Qed.

Lemma members_weight (l : list (string * json)) :
  (length l <= list_sum (map (fun m => weight (snd m)) l))%nat.
Proof.
  induction l as [ | x l IH ]; simpl; [ lia | ]. pose proof (weight_pos (snd x)). lia.
Qed.

Lemma parse_emit_value (v : json) : parses v.
Proof.
  induction v as [ | b | z | s | l IH | l IH ] using json_nested_ind;
    intros fuel k Hf Hk; (destruct fuel as [ | f ]; [ simpl in Hf; lia | ]).
  - reflexivity.
  - destruct b; reflexivity.
  - cbn [emit_value]. rewrite parse_value_number by apply emit_number_starts.
    now rewrite parse_number_emit.
  - cbn [emit_value parse_value]. unfold emit_string. next_char.
    now rewrite parse_chars_emit.
  - destruct IH as [ | x xs Hx Hxs ]; [ reflexivity | ].
    simpl in Hf. pose proof (elements_weight xs) as Hlen. pose proof (weight_pos x) as Hpos.
    cbn [emit_value emit_list parse_value]. next_char.
    destruct (emit_value_head x (sep_by emit_value xs (String "]" k))) as (c & r & E & Hc).
    rewrite (parse_elements_emit f xs Hxs x f k Hx) by lia.
    rewrite E, skip_ws_nonws by assumption. rewrite <- E.
    assert (Hne : (c =? "]")%char = false).
    { pose proof (Hx (weight x) (sep_by emit_value xs (String "]" k)) (le_n _)
        (number_follow_sep emit_value "]"%char xs k eq_refl)) as Hp.
      rewrite E in Hp. destruct (c =? "]")%char eqn:Ec; [ | reflexivity ].
      apply Ascii.eqb_eq in Ec. subst c.
      pose proof (weight_pos x). destruct (weight x); [ lia | ]. discriminate Hp. }
    rewrite Hne. reflexivity.
  - destruct IH as [ | x xs Hx Hxs ]; [ reflexivity | ].
    simpl in Hf. pose proof (members_weight xs) as Hlen. pose proof (weight_pos (snd x)) as Hpos.
    cbn [emit_value emit_list parse_value]. next_char.
    change (fun (m : string * json) (k' : string) =>
              emit_string (fst m) (String ":" (emit_value (snd m) k'))) with emit_member.
    change (emit_string (fst x) (String ":" (emit_value (snd x)
              (sep_by emit_member xs (String "}" k)))))
      with (emit_member x (sep_by emit_member xs (String "}" k))).
    rewrite (parse_members_emit f xs Hxs x f k Hx) by lia.
    unfold emit_member at 1, emit_string. next_char. reflexivity.
Qed.

Lemma escape_char_length (c : ascii) (k : string) :
  (String.length k <= String.length (escape_char c k))%nat.
Proof.
  unfold escape_char.
  repeat match goal with |- context [if ?b then _ else _] => destruct b end; simpl; lia.
Qed.

Lemma emit_chars_length (s k : string) :
  (String.length k <= String.length (emit_chars s k))%nat.
Proof.
  induction s as [ | c s IH ]; simpl; [ lia | ].
  pose proof (escape_char_length c (emit_chars s k)). lia.
Qed.

Lemma sep_by_grows {A} (emit : A -> string -> string) (w : A -> nat) (xs : list A) :
  Forall (fun x => forall k, (w x + String.length k <= String.length (emit x k))%nat) xs ->
  forall k, (list_sum (map w xs) + String.length k <= String.length (sep_by emit xs k))%nat.
Proof.
  induction 1 as [ | x xs Hx Hxs IH ]; intros k; simpl; [ lia | ].
  specialize (Hx (sep_by emit xs k)). specialize (IH k). lia.
Qed.

Lemma emit_list_grows {A} (emit : A -> string -> string) (w : A -> nat) close (xs : list A) :
  Forall (fun x => forall k, (w x + String.length k <= String.length (emit x k))%nat) xs ->
  forall k, (list_sum (map w xs) + String.length k <= String.length (emit_list emit close xs k))%nat.
Proof.
  intros [ | x ys Hx Hys ] k; simpl; [ lia | ].
  specialize (Hx (sep_by emit ys (String close k))).
  pose proof (sep_by_grows emit w ys Hys (String close k)) as Hs. simpl in Hs. lia.
Qed.

Lemma emit_value_grows (v : json) : grows v.
Proof.
  induction v as [ | b | z | s | l IH | l IH ] using json_nested_ind; intros k.
  - cbn [emit_value weight]. rewrite length_append. simpl. lia.
  - destruct b; cbn [emit_value weight]; rewrite length_append; simpl; lia.
  - pose proof (emit_number_starts z EmptyString) as Hne.
    cbn [emit_value weight]. unfold emit_number in *.
    destruct (z <? 0)%Z; cbn [String.length]; rewrite length_append.
    + lia.
    + destruct (NilEmpty.string_of_uint (N.to_uint (Z.to_N z))); [ discriminate | simpl; lia ].
  - cbn [emit_value weight]. unfold emit_string. cbn [String.length].
    pose proof (emit_chars_length s (String quote k)) as H. simpl in H. lia.
  - cbn [emit_value weight String.length].
    pose proof (emit_list_grows emit_value weight "]" l IH k). lia.
  - cbn [emit_value weight String.length].
    pose proof (emit_list_grows
      (fun m k' => emit_string (fst m) (String ":" (emit_value (snd m) k')))
      (fun m => weight (snd m)) "}" l) as H.
    specialize (fun H' => H H' k). cbv beta in H. 
    assert (Hm : Forall (fun x : string * json => forall k0 : string,
        (weight (snd x) + String.length k0 <=
         String.length (emit_string (fst x) (String ":" (emit_value (snd x) k0))))%nat) l).
    { clear H. induction IH as [ | m ms Hm Hms IHms ]; constructor; [ | exact IHms ].
      intros k0. unfold emit_string. cbn [String.length].
      pose proof (emit_chars_length (fst m) (String quote (String ":" (emit_value (snd m) k0)))) as Hc.
      specialize (Hm k0). simpl in Hc. lia. }
    specialize (H Hm). lia.
Qed.

Theorem parse_exact_stringify (v : json) : parse_exact (JSON_stringify v) = Some v.
Proof.
  unfold parse_exact, JSON_stringify.
  rewrite parse_emit_value; [ reflexivity | | reflexivity ].
  pose proof (emit_value_grows v EmptyString). simpl. lia.
Qed.

(** [JSON.parse(JSON.stringify(v))] is [v]. *)
Theorem JSON_parse_stringify (v : json) :
  modelled v = true -> JSON_parse (JSON_stringify v) = Some (Exact v).
Proof. intros H. unfold JSON_parse. now rewrite parse_exact_stringify, H. Qed.

(** *** The exact reader stays within the grammar *)

Lemma parse_chars_scan (n : nat) (s str k : string) :
  (String.length s <= n)%nat -> parse_chars s = Some (str, k) -> scan_chars s = Some k.
Proof.
  revert s str k. induction n as [ | n IH ]; intros s str k Hl H.
  - destruct s; [ discriminate H | cbn [String.length] in Hl; lia ].
  - destruct s as [ | c r ]; [ discriminate H | ]. cbn [parse_chars scan_chars] in *.
    destruct (c =? quote)%char; [ injection H as _ <-; reflexivity | ].
    destruct (c =? backslash)%char.
    + destruct r as [ | e r1 ]; [ discriminate H | ]. destruct (e =? "u")%char.
      * destruct r1 as [ | h1 [ | h2 [ | h3 [ | h4 r2 ] ] ] ]; try discriminate H.
        unfold is_hex.
        destruct (hex_value h1) as [ [ | ? ] | ]; try discriminate H.
        destruct (hex_value h2) as [ [ | ? ] | ]; try discriminate H.
        destruct (hex_value h3) as [ a | ]; try discriminate H.
        destruct (hex_value h4) as [ b | ]; try discriminate H.
        destruct (a <? 8)%nat; try discriminate H. unfold prepend in H.
        destruct (parse_chars r2) as [ [s' k'] | ] eqn:E; try discriminate H.
        injection H as _ <-. cbn [andb]. eapply IH; [ | exact E ]; cbn [String.length] in Hl; lia.
      * destruct (unescape e); [ | discriminate H ]. unfold prepend in H.
        destruct (parse_chars r1) as [ [s' k'] | ] eqn:E; try discriminate H.
        injection H as _ <-. eapply IH; [ | exact E ]; cbn [String.length] in Hl; lia.
    + destruct (nat_of_ascii c <? 32)%nat; [ discriminate H | ]. unfold prepend in H.
      destruct (parse_chars r) as [ [s' k'] | ] eqn:E; try discriminate H.
      injection H as _ <-. eapply IH; [ | exact E ]; cbn [String.length] in Hl; lia.
Qed.

Lemma span_digits_none (s k : string) : span_digits s = (EmptyString, k) -> k = s.
Proof.
  destruct s as [ | c r ]; simpl; [ congruence | ].
  destruct (is_digit c); [ destruct (span_digits r); discriminate | congruence ].
Qed.

Lemma number_follow_scan (k : string) :
  number_follow k = true -> (k' ← scan_fraction k; scan_exponent k') = Some k.
Proof.
  destruct k as [ | c r ]; [ reflexivity | ]. cbn [number_follow scan_fraction].
  intros H. apply negb_true_iff in H. apply orb_false_iff in H as [H He'].
  apply orb_false_iff in H as [H He]. apply orb_false_iff in H as [_ Hd].
  rewrite Hd. cbn [mbind option_bind scan_exponent]. now rewrite He, He'.
Qed.

Lemma parse_digits_scan (s : string) (n : N) (k : string) :
  parse_digits s = Some (n, k) ->
  (k0 ← scan_int s; k1 ← scan_fraction k0; scan_exponent k1) = Some k.
Proof.
  unfold parse_digits. destruct s as [ | c r ]; [ discriminate | ]. cbn [span_digits scan_int].
  destruct (is_digit c) eqn:Hc; [ | discriminate ].
  destruct (span_digits r) as [ds k'] eqn:E.
  destruct ((c =? "0")%char) eqn:Hz; cbn [andb].
  - destruct ds as [ | d ds ]; cbn [String.eqb negb]; [ | discriminate ].
    apply span_digits_none in E. subst k'.
    destruct (number_follow r) eqn:F; [ | discriminate ].
    intros H. cbn [mbind option_bind] in *.
    destruct (NilEmpty.uint_of_string _); [ | discriminate H ]. injection H as _ <-.
    now apply number_follow_scan.
  - destruct (number_follow k') eqn:F; [ | discriminate ].
    intros H. cbn [mbind option_bind snd] in *.
    destruct (NilEmpty.uint_of_string _); [ | discriminate H ]. injection H as _ <-.
    now apply number_follow_scan.
Qed.

Lemma parse_number_scan (s : string) (z : Z) (k : string) :
  parse_number s = Some (z, k) -> scan_number s = Some k.
Proof.
  unfold parse_number, scan_number. destruct s as [ | c r ]; [ discriminate | ].
  destruct (c =? "-")%char.
  - destruct (parse_digits r) as [ [n k'] | ] eqn:E; [ | discriminate ].
    cbn [mbind option_bind]. destruct (n =? 0)%N; [ discriminate | ].
    intros H. injection H as _ <-. exact (parse_digits_scan _ _ _ E).
  - destruct (parse_digits (String c r)) as [ [n k'] | ] eqn:E; [ | discriminate ].
    cbn [mbind option_bind]. intros H. injection H as _ <-. exact (parse_digits_scan _ _ _ E).
Qed.

Section Scanned.
Context (parse_item : string -> option (json * string)) (scan_item : string -> option string).
Hypothesis item : forall s v k, parse_item s = Some (v, k) -> scan_item s = Some k.

Lemma parse_elements_scan (n : nat) (s : string) (vs : list json) (k : string) :
    parse_elements parse_item n s = Some (vs, k) -> scan_elements scan_item n s = Some k.
Proof.
    revert s vs k. induction n as [ | n IH ]; intros s vs k; [ discriminate | ].
    cbn [parse_elements scan_elements].
    destruct (parse_item s) as [ [v r] | ] eqn:E; [ | discriminate ].
    rewrite (item _ _ _ E). cbn [mbind option_bind].
    destruct (skip_ws r) as [ | c r' ]; [ discriminate | ].
    destruct (c =? ",")%char.
    - destruct (parse_elements parse_item n r') as [ [vs' k'] | ] eqn:E'; [ | discriminate ].
      cbn [mbind option_bind]. intros H. injection H as _ <-. exact (IH _ _ _ E').
    - destruct (c =? "]")%char; [ | discriminate ]. intros H. now injection H as _ <-.
Qed.

Lemma parse_members_scan (n : nat) (s : string) (ms : list (string * json)) (k : string) :
    parse_members parse_item n s = Some (ms, k) -> scan_members scan_item n s = Some k.
Proof.
    revert s ms k. induction n as [ | n IH ]; intros s ms k; [ discriminate | ].
    cbn [parse_members scan_members].
    destruct (skip_ws s) as [ | q r0 ]; [ discriminate | ].
    destruct (q =? quote)%char; [ | discriminate ].
    destruct (parse_chars r0) as [ [key r1] | ] eqn:Ek; [ | discriminate ].
    rewrite (parse_chars_scan _ _ _ _ (le_n _) Ek). cbn [mbind option_bind].
    destruct (skip_ws r1) as [ | c1 r2 ]; [ discriminate | ].
    destruct (c1 =? ":")%char; [ | discriminate ].
    destruct (parse_item r2) as [ [v r3] | ] eqn:E; [ | discriminate ].
    rewrite (item _ _ _ E). cbn [mbind option_bind].
    destruct (skip_ws r3) as [ | c r' ]; [ discriminate | ].
    destruct (c =? ",")%char.
    - destruct (parse_members parse_item n r') as [ [ms' k'] | ] eqn:E'; [ | discriminate ].
      cbn [mbind option_bind]. intros H. injection H as _ <-. exact (IH _ _ _ E').
    - destruct (c =? "}")%char; [ | discriminate ]. intros H. now injection H as _ <-.
Qed.
End Scanned.

Lemma parse_value_scan (fuel : nat) (s : string) (v : json) (k : string) :
  parse_value fuel s = Some (v, k) -> scan_value fuel s = Some k.
Proof.
  revert s v k. induction fuel as [ | fuel IH ]; intros s v k; [ discriminate | ].
  cbn [parse_value scan_value].
  destruct (skip_ws s) as [ | c r ]; [ discriminate | ].
  destruct (c =? "n")%char.
  { destruct (strip "ull" r); [ | discriminate ]. cbn. intros H. now injection H as _ <-. }
  destruct (c =? "t")%char.
  { destruct (strip "rue" r); [ | discriminate ]. cbn. intros H. now injection H as _ <-. }
  destruct (c =? "f")%char.
  { destruct (strip "alse" r); [ | discriminate ]. cbn. intros H. now injection H as _ <-. }
  destruct (c =? quote)%char.
  { destruct (parse_chars r) as [ [str k'] | ] eqn:E; [ | discriminate ].
    cbn [mbind option_bind]. intros H. injection H as _ <-.
    exact (parse_chars_scan _ _ _ _ (le_n _) E). }
  destruct (c =? "[")%char.
  { destruct (skip_ws r) as [ | c' r' ]; [ discriminate | ].
    destruct (c' =? "]")%char; [ intros H; now injection H as _ <- | ].
    destruct (parse_elements (parse_value fuel) fuel r) as [ [vs k'] | ] eqn:E; [ | discriminate ].
    cbn [mbind option_bind]. intros H. injection H as _ <-.
    exact (parse_elements_scan _ _ IH _ _ _ _ E). }
  destruct (c =? "{")%char.
  { destruct (skip_ws r) as [ | c' r' ]; [ discriminate | ].
    destruct (c' =? "}")%char; [ intros H; now injection H as _ <- | ].
    destruct (parse_members (parse_value fuel) fuel r) as [ [ms k'] | ] eqn:E; [ | discriminate ].
    cbn [mbind option_bind]. intros H. injection H as _ <-.
    exact (parse_members_scan _ _ IH _ _ _ _ E). }
  destruct (parse_number (String c r)) as [ [z k'] | ] eqn:E; [ | discriminate ].
  cbn [mbind option_bind]. intros H. injection H as _ <-. exact (parse_number_scan _ _ _ E).
Qed.

(** A text read exactly is a JSON text. *)
Lemma parse_exact_is_JSON (text : string) (v : json) :
  parse_exact text = Some v -> is_JSON text = true.
Proof.
  unfold parse_exact, is_JSON.
  destruct (parse_value _ text) as [ [v' k] | ] eqn:E; [ | discriminate ].
  rewrite (parse_value_scan _ _ _ _ E). cbn [mbind option_bind].
  destruct (skip_ws k); [ reflexivity | discriminate ].
Qed.

(** [JSON_parse] throws on the texts outside the grammar, and on no
    other. *)
Theorem JSON_parse_None (text : string) : JSON_parse text = None <-> is_JSON text = false.
Proof.
  unfold JSON_parse. destruct (parse_exact text) as [ v | ] eqn:E.
  - rewrite (parse_exact_is_JSON _ _ E). split; discriminate.
  - destruct (is_JSON text); split; congruence.
Qed.

End JsonFacts.

(** * Progress records as JSON *)

Lemma badge_of_to_json (b : Badge.t) : Badge.of_json (Badge.to_json b) = Some b.
Proof. destruct b; reflexivity. Qed.

Lemma progress_of_to_json (r : Progress.t) : Progress.of_json (Progress.to_json r) = Some r.
Proof.
  destruct r as [cs bs se vc]. unfold Progress.to_json, Progress.of_json.
  cbn [Progress.completedProcedures Progress.badges Progress.soundEnabled Progress.visitCount].
  change (String.eqb "completedProcedures" "completedProcedures" && String.eqb "badges" "badges"
          && String.eqb "soundEnabled" "soundEnabled" && String.eqb "visitCount" "visitCount")
    with true. cbv iota.
  rewrite (mapM_fmap_Some Progress.string_of_json JString) by reflexivity.
  cbn [mbind option_bind].
  rewrite (mapM_fmap_Some Badge.of_json Badge.to_json) by (intros b; apply badge_of_to_json).
  reflexivity.
Qed.

Lemma stringify_not_empty (v : json) : JSON_stringify v <> "".
Proof.
  intros E. pose proof (JsonFacts.parse_exact_stringify v) as H. rewrite E in H. discriminate H.
Qed.

Lemma strings_modelled (l : list string) : forallb modelled (map JString l) = true.
Proof. induction l as [ | x l IH ]; [ reflexivity | exact IH ]. Qed.

Lemma badges_modelled (l : list Badge.t) : forallb modelled (map Badge.to_json l) = true.
Proof. induction l as [ | b l IH ]; [ reflexivity | exact IH ]. Qed.

(** A progress record is among the values [JSON_parse] reads exactly. *)
Lemma to_json_modelled (r : Progress.t) : modelled (Progress.to_json r) = true.
Proof.
  unfold Progress.to_json. cbn [modelled map fst snd forallb].
  rewrite strings_modelled, badges_modelled. reflexivity.
Qed.

Lemma JSON_parse_record (r : Progress.t) :
  JSON_parse (JSON_stringify (Progress.to_json r)) = Some (Exact (Progress.to_json r)).
Proof. apply JsonFacts.JSON_parse_stringify, to_json_modelled. Qed.

Lemma JSON_parse_empty : JSON_parse "" = None.
Proof. reflexivity. Qed.

(** * The progress store *)

Lemma loadProgress_stored (storage : gmap string string) (text : string) (value : parsed) :
  storage !! storage_key = Some text -> JSON_parse text = Some value ->
  loadProgress storage = Normal value.
Proof.
  intros Hs Hp. unfold loadProgress. fold storage_key. rewrite Hs.
  destruct (String.eqb_spec text ""); [ subst; rewrite JSON_parse_empty in Hp; discriminate | ].
  now rewrite Hp.
Qed.

Lemma loadProgress_saved (s : State) :
  loadProgress (localStorage (exec saveProgress s))
  = Normal (Progress.to_json (userProgress (exec saveProgress s))).
Proof.
  eapply loadProgress_stored.
  - apply lookup_insert_eq.
  - apply JSON_parse_record.
Qed.

(** C4 (as amended): [loadProgress] returns the default record when
    nothing, or the empty string, is stored, and it returns a stored
    progress record.  On any other stored text it does what [JSON.parse]
    does: a JSON text is parsed and the value returned whatever its
    shape, and a text that is not empty and not JSON makes it throw the
    [SyntaxError] of [JSON.parse] instead of returning the default.  (The
    value returned is said for the records and texts whose integers lie
    within [2^53], which JavaScript does not round.) *)
Theorem loadProgress_cases (storage : gmap string string) :
  loadProgress (delete storage_key storage) = Normal (Progress.to_json Progress.default)
  /\ loadProgress (<[storage_key := ""]> storage) = Normal (Progress.to_json Progress.default)
  /\ (forall r : Progress.t, unrounded (Progress.to_json r) ->
        loadProgress (<[storage_key := JSON_stringify (Progress.to_json r)]> storage)
        = Normal (Progress.to_json r))
  /\ (forall text value, text <> "" -> JSON_parse text = Some value -> unrounded value ->
        loadProgress (<[storage_key := text]> storage) = Normal value)
  /\ (forall text, text <> "" -> is_JSON text = true ->
        exists value, loadProgress (<[storage_key := text]> storage) = Normal value)
  /\ (forall text, text <> "" -> is_JSON text = false ->
        loadProgress (<[storage_key := text]> storage) = Throw SyntaxError).
Proof.
  unfold loadProgress. fold storage_key.
  split; [ now rewrite lookup_delete_eq | ]. split; [ now rewrite lookup_insert_eq | ].
  split; [ | split; [ | split ] ].
  - intros r _. rewrite lookup_insert_eq.
    destruct (String.eqb_spec (JSON_stringify (Progress.to_json r)) "") as [E | _].
    + now apply stringify_not_empty in E.
    + now rewrite JSON_parse_record.
  - intros text value Hne Hp _. rewrite lookup_insert_eq.
    destruct (String.eqb_spec text ""); [ contradiction | ]. now rewrite Hp.
  - intros text Hne Hj. rewrite lookup_insert_eq.
    destruct (String.eqb_spec text ""); [ contradiction | ].
    destruct (JSON_parse text) as [ value | ] eqn:Hp; [ exists value; reflexivity | ].
    apply JsonFacts.JSON_parse_None in Hp. congruence.
  - intros text Hne Hj. rewrite lookup_insert_eq.
    destruct (String.eqb_spec text ""); [ contradiction | ].
    apply JsonFacts.JSON_parse_None in Hj. now rewrite Hj.
Qed.

Lemma loadProgress_cases_witness :
  loadProgress (<[storage_key := JSON_stringify
                                   (Progress.to_json (Progress.mk ["xray"] [] false 3))]> ∅)
  = Normal (Progress.to_json (Progress.mk ["xray"] [] false 3))
  /\ loadProgress (<[storage_key := "[1, 2]"]> ∅) = Normal (JArray [JNumber 1; JNumber 2])
  /\ loadProgress (<[storage_key := "0.5"]> ∅) = Normal (Other "0.5")
  /\ loadProgress (<[storage_key := "not json"]> ∅) = Throw SyntaxError.
Proof.
  destruct (loadProgress_cases ∅) as (_ & _ & Hrecord & Hparsed & _ & Hcorrupt).
  split; [ | split; [ | split ] ].
  - apply Hrecord. reflexivity.
  - apply Hparsed; [ discriminate | reflexivity | reflexivity ].
  - apply Hparsed; [ discriminate | reflexivity | exact I ].
  - apply Hcorrupt; [ discriminate | reflexivity ].
Defined.

(** C4, the claim as stated fails: with the text [{] in the slot,
    [loadProgress] throws, and so does the constructor that calls it. *)
Lemma loadProgress_corrupt_throws :
  loadProgress {[storage_key := "{"]} = Throw SyntaxError
  /\ loadProgress {[storage_key := "{"]} <> Normal (Progress.to_json Progress.default)
  /\ constructor {[storage_key := "{"]} sample_page = Crashed SyntaxError.
Proof. split; [ reflexivity | split; [ discriminate | reflexivity ] ]. Qed.

(** C6 (as amended): [saveProgress] first copies the controller's
    [soundEnabled] flag into the record and then replaces the stored text
    by the record's JSON; [loadProgress] then returns exactly the record as
    it stands after the save, which is the record before the save in every
    field but [soundEnabled]. *)
Theorem save_then_load (s : State) :
  let s' := exec saveProgress s in
  loadProgress (localStorage s') = Normal (Progress.to_json (userProgress s'))
  /\ Progress.of_json (Progress.to_json (userProgress s')) = Some (userProgress s')
  /\ userProgress s' = Progress.set_soundEnabled (soundEnabled s) (userProgress s)
  /\ localStorage s'
     = <[storage_key := JSON_stringify (Progress.to_json (userProgress s'))]> (localStorage s)
  /\ outcome saveProgress s = Normal tt.
Proof.
  cbv zeta. split; [ apply loadProgress_saved | ].
  split; [ apply progress_of_to_json | ]. repeat split.
Qed.


(** C6, the claim as stated fails: after the sound was switched off and
    the page reloaded, the record in memory has [soundEnabled = false]
    while the controller's flag is [true]; saving that record and loading
    it back gives a record with [soundEnabled = true]. *)
Lemma save_then_load_differs :
  Progress.soundEnabled (userProgress muted_then_reloaded) = false
  /\ loadProgress (localStorage (exec saveProgress muted_then_reloaded))
     = Normal (Progress.to_json (Progress.mk [] [] true 0))
  /\ loadProgress (localStorage (exec saveProgress muted_then_reloaded))
     <> Normal (Progress.to_json (userProgress muted_then_reloaded)).
Proof.
  split; [ vm_compute; reflexivity | ].
  rewrite loadProgress_saved. split; [ vm_compute; reflexivity | ].
  vm_compute. discriminate.
Qed.

(** * Completion rate *)

(** C7: the completion rate is round(100 x |completedProcedures| / 4),
    that is 25 for each entry of [completedProcedures]: 0 for none, 50 for
    two, 100 for four. *)
Theorem completion_rate (s : State) :
  calculateCompletionRate s = spec_completion_rate (userProgress s)
  /\ calculateCompletionRate s
     = (25 * Z.of_nat (length (Progress.completedProcedures (userProgress s))))%Z
  /\ totalProcedureCount = 4%Z
  /\ calculateCompletionRate (with_completed [] s) = 0%Z
  /\ (forall a b, calculateCompletionRate (with_completed [a; b] s) = 50%Z)
  /\ (forall a b c d, calculateCompletionRate (with_completed [a; b; c; d] s) = 100%Z).
Proof.
  assert (Hrate : forall n : Z, Math_round ((inject_Z n / inject_Z 4) * 100) = (25 * n)%Z).
  { intros n. unfold Math_round.
    replace (25 * n)%Z with (Qfloor (inject_Z (25 * n) + 1 / 2)).
    - apply Qfloor_comp. unfold Qeq, Qdiv, Qmult, Qplus, Qinv, inject_Z; simpl. lia.
    - unfold Qfloor, Qplus, Qdiv, Qmult, Qinv, inject_Z; simpl.
      symmetry. apply Z.div_unique with (r := 1%Z); lia. }
  assert (Hspec : forall n : Z, Math_round (100 * inject_Z n / inject_Z 4) = (25 * n)%Z).
  { intros n. rewrite <- Hrate. unfold Math_round. apply Qfloor_comp.
    unfold Qeq, Qdiv, Qmult, Qplus, Qinv, inject_Z; simpl. lia. }
  unfold calculateCompletionRate, spec_completion_rate, totalProcedureCount.
  cbv zeta. rewrite Hrate, Hspec. repeat split.
Qed.

(** * Relations kept by every method *)

Lemma exec_bind {A B} (m : M A) (f : A -> M B) (s : State) :
  exec (m ≫= f) s
  = match m s with
    | (Normal a, s') => exec (f a) s'
    | (Throw _, s') => s'
    end.
Proof. unfold exec, mbind, M_bind. destruct (m s) as [[a | e] s']; reflexivity. Qed.

Lemma outcome_bind {A B} (m : M A) (f : A -> M B) (s : State) :
  outcome (m ≫= f) s
  = match m s with
    | (Normal a, s') => outcome (f a) s'
    | (Throw e, _) => Throw e
    end.
Proof. unfold outcome, mbind, M_bind. destruct (m s) as [[a | e] s']; reflexivity. Qed.

Section Frame.
Variable R : State -> State -> Prop.
Hypothesis R_refl : forall s, R s s.
Hypothesis R_trans : forall a b c, R a b -> R b c -> R a c.

Lemma preserves_ret {A} (a : A) : preserves R (mret a).
Proof. intros s. apply R_refl. Qed.

Lemma preserves_gets {A} (f : State -> A) : preserves R (gets f).
Proof. intros s. apply R_refl. Qed.

Lemma preserves_throw {A} (e : JsError) : preserves R (@throw A e).
Proof. intros s. apply R_refl. Qed.

Lemma preserves_lift {A} (c : completion A) : preserves R (lift c).
Proof. intros s. apply R_refl. Qed.

Lemma preserves_modify (f : State -> State) :
    (forall s, R s (f s)) -> preserves R (modify f).
Proof. intros H s. apply H. Qed.

Lemma preserves_bind {A B} (m : M A) (f : A -> M B) :
    preserves R m -> (forall a, preserves R (f a)) -> preserves R (m ≫= f).
Proof.
    intros Hm Hf s. rewrite exec_bind. specialize (Hm s). unfold exec in Hm.
    destruct (m s) as [[a | e] s']; simpl in Hm; [ | exact Hm ].
    eapply R_trans; [ exact Hm | apply Hf ].
Qed.

  (** The relation does not look at the page, the timers, the trace or
      the current section. *)
Hypothesis R_document : forall v s, R s (set_document v s).
Hypothesis R_timers : forall v s, R s (set_timers v s).
Hypothesis R_trace : forall v s, R s (set_trace v s).
Hypothesis R_currentSection : forall v s, R s (set_currentSection v s).

Ltac frame_step :=
    first
      [ apply preserves_ret | apply preserves_gets | apply preserves_throw
      | apply preserves_lift
      | apply preserves_modify; intros; first [ apply R_document | apply R_timers
                                              | apply R_trace | apply R_currentSection ]
      | apply preserves_bind; [ | intros ? ]
      | match goal with
        | |- preserves _ (match ?x with _ => _ end) => destruct x
        | |- preserves _ (let _ := _ in _) => cbv zeta
        end ].

Ltac frame := repeat frame_step.
Ltac frame_using known := repeat first [ known | frame_step ].

Lemma console_log_frame message : preserves R (console_log message).
Proof. unfold console_log. frame. Qed.

Lemma emit_frame e : preserves R (emit e).
Proof. unfold emit. frame. Qed.

Lemma setTimeout_frame callback delay : preserves R (setTimeout callback delay).
Proof. unfold setTimeout. frame. Qed.

Lemma update_document_frame f : preserves R (update_document f).
Proof. unfold update_document. frame. Qed.

Lemma activate_frame r : preserves R (activate r).
Proof. unfold activate. destruct r; [ apply update_document_frame | frame ]. Qed.

Lemma playTone_frame f d t : preserves R (playTone f d t).
Proof. unfold playTone. frame; apply emit_frame. Qed.

Lemma playClickSound_frame : preserves R playClickSound.
Proof. unfold playClickSound. frame; apply playTone_frame. Qed.

Lemma playHoverSound_frame : preserves R playHoverSound.
Proof. unfold playHoverSound. frame; apply playTone_frame. Qed.

Lemma playWelcomeSound_frame : preserves R playWelcomeSound.
Proof. unfold playWelcomeSound. frame; apply setTimeout_frame. Qed.

Lemma animateProgressCircle_frame : preserves R animateProgressCircle.
Proof.
    unfold animateProgressCircle. frame; first [ apply emit_frame | apply update_document_frame ].
Qed.

Lemma animateBadges_frame : preserves R animateBadges.
Proof. unfold animateBadges. frame; apply update_document_frame. Qed.

Lemma triggerSectionAnimations_frame sectionName :
    preserves R (triggerSectionAnimations sectionName).
Proof.
    unfold triggerSectionAnimations, animateProcedureCards, animateTipCards.
    frame; first [ apply emit_frame | apply animateProgressCircle_frame
                 | apply animateBadges_frame ].
Qed.

Lemma updateProgressDisplay_frame : preserves R updateProgressDisplay.
Proof.
    unfold updateProgressDisplay.
    frame; first [ apply animateProgressCircle_frame | apply animateBadges_frame ].
Qed.

Lemma navigateToSection_frame sectionName activeButton :
    preserves R (navigateToSection sectionName activeButton).
Proof.
    unfold navigateToSection.
    frame; first [ apply update_document_frame | apply activate_frame | apply setTimeout_frame
                 | apply playClickSound_frame | apply console_log_frame ].
Qed.

Lemma fire_frame callback : preserves R (fire callback).
Proof.
    unfold fire.
    frame; first [ apply update_document_frame | apply triggerSectionAnimations_frame
                 | apply playTone_frame ].
Qed.

Lemma showProcedureModal_frame procedureType : preserves R (showProcedureModal procedureType).
Proof.
    unfold showProcedureModal. frame; first [ apply update_document_frame | apply console_log_frame ].
Qed.

Lemma closeModal_frame : preserves R closeModal.
Proof.
    unfold closeModal.
    frame; first [ apply update_document_frame | apply playClickSound_frame
                 | apply console_log_frame ].
Qed.

Lemma startProcedure_frame procedureType : preserves R (startProcedure procedureType).
Proof.
    unfold startProcedure.
    frame; first [ apply console_log_frame | apply playClickSound_frame
                 | apply showProcedureModal_frame ].
Qed.

Lemma nextProcedureStep_frame procedureType step :
    preserves R (nextProcedureStep procedureType step).
Proof.
    unfold nextProcedureStep.
    frame; first [ apply update_document_frame | apply playClickSound_frame
                 | apply console_log_frame ].
Qed.

Lemma showHelpModal_frame : preserves R showHelpModal.
Proof.
    unfold showHelpModal. frame; first [ apply update_document_frame | apply playClickSound_frame ].
Qed.

Lemma showBadgeNotification_frame badgeName badgeIcon :
    preserves R (showBadgeNotification badgeName badgeIcon).
Proof.
    unfold showBadgeNotification. frame; first [ apply emit_frame | apply playWelcomeSound_frame ].
Qed.

Lemma init_frame : preserves R init.
Proof.
    unfold init.
    frame; first [ apply console_log_frame | apply updateProgressDisplay_frame
                 | apply playWelcomeSound_frame ].
Qed.

  (** The three methods that write the store. *)
Hypothesis R_saveProgress : preserves R saveProgress.
Hypothesis R_soundEnabled : forall v s, R s (set_soundEnabled v s).
Hypothesis R_awardBadge : forall badgeId badgeName badgeIcon now,
    preserves R (awardBadge badgeId badgeName badgeIcon now).

Lemma toggleSound_frame : preserves R toggleSound.
Proof.
    unfold toggleSound.
    apply preserves_bind; [ frame | intros d ].
    destruct (soundToggle d); [ | frame ]. destruct (soundIcon d); [ | frame ].
    apply preserves_bind; [ apply preserves_modify; intros; apply R_soundEnabled | intros _ ].
    apply preserves_bind; [ frame | intros enabled ].
    apply preserves_bind; [ apply update_document_frame | intros _ ].
    apply preserves_bind; [ apply R_saveProgress | intros _ ].
    apply console_log_frame.
Qed.

Lemma handle_frame intent : preserves R (handle intent).
Proof.
    destruct intent; cbn [handle].
    - apply navigateToSection_frame.
    - apply startProcedure_frame.
    - apply showProcedureModal_frame.
    - apply nextProcedureStep_frame.
    - apply closeModal_frame.
    - apply showHelpModal_frame.
    - apply toggleSound_frame.
    - apply playHoverSound_frame.
    - apply R_saveProgress.
    - apply R_awardBadge.
    - apply updateProgressDisplay_frame.
    - apply preserves_bind; [ apply preserves_gets | intros ts ].
      destruct (ts !! i) as [[delay callback] | ]; [ | apply preserves_ret ].
      apply preserves_bind; [ | intros _; apply fire_frame ].
      apply preserves_modify. intros s. apply R_timers.
Qed.

Lemma run_frame intents s : R s (run intents s).
Proof.
    revert s. induction intents as [ | intent intents IH ]; intros s; simpl.
    - apply R_refl.
    - eapply R_trans; [ apply handle_frame | apply IH ].
Qed.
End Frame.

(** * Badges *)

Ltac run_m :=
  unfold exec, outcome;
  unfold mbind, M_bind, mret, M_ret, gets, modify, throw, lift, update_document,
    console_log, emit, setTimeout;
  cbn.

Lemma find_badge_None (i : string) (bs : list Badge.t) :
  find (fun b => String.eqb (Badge.id b) i) bs = None <-> i ∉ map Badge.id bs.
Proof.
  induction bs as [ | b bs IH ]; simpl.
  - split; [ intros _; apply not_elem_of_nil | reflexivity ].
  - destruct (String.eqb_spec (Badge.id b) i) as [E | N].
    + split; [ discriminate | ]. intros H. exfalso. apply H. subst i. apply elem_of_cons. now left.
    + rewrite IH. rewrite not_elem_of_cons. split; [ intros H; split; [ congruence | exact H ] | tauto ].
Qed.

Lemma count_absent (i : string) (bs : list Badge.t) :
  i ∉ map Badge.id bs -> length (filter (fun b => Badge.id b = i) bs) = 0%nat.
Proof.
  induction bs as [ | b bs IH ]; simpl; [ reflexivity | ].
  rewrite not_elem_of_cons. intros [N H]. rewrite filter_cons.
  destruct (decide (Badge.id b = i)); [ congruence | auto ].
Qed.

Lemma count_present (i : string) (bs : list Badge.t) :
  NoDup (map Badge.id bs) -> i ∈ map Badge.id bs ->
  length (filter (fun b => Badge.id b = i) bs) = 1%nat.
Proof.
  induction bs as [ | b bs IH ]; simpl; intros Hnd Hin.
  - now apply elem_of_nil in Hin.
  - apply NoDup_cons in Hnd as [Hb Hnd]. rewrite filter_cons.
    destruct (decide (Badge.id b = i)) as [E | N].
    + simpl. rewrite count_absent; [ reflexivity | congruence ].
    + apply elem_of_cons in Hin as [E | Hin]; [ congruence | auto ].
Qed.

Lemma awardBadge_existing (badgeId badgeName badgeIcon now : string) (s : State) :
  badgeId ∈ badge_ids (userProgress s) ->
  awardBadge badgeId badgeName badgeIcon now s = (Normal tt, s).
Proof.
  intros Hin. unfold awardBadge. run_m.
  destruct (find _ _) eqn:E; [ reflexivity | ].
  apply find_badge_None in E. contradiction.
Qed.

Lemma awardBadge_new (badgeId badgeName badgeIcon now : string) (s : State) :
  badgeId ∉ badge_ids (userProgress s) ->
  let s' := exec (awardBadge badgeId badgeName badgeIcon now) s in
  userProgress s'
  = Progress.mk (Progress.completedProcedures (userProgress s))
      (Progress.badges (userProgress s) ++ [Badge.mk badgeId badgeName badgeIcon now])%list
      (soundEnabled s) (Progress.visitCount (userProgress s))
  /\ localStorage s'
     = <[storage_key := JSON_stringify (Progress.to_json (userProgress s'))]> (localStorage s)
  /\ soundEnabled s' = soundEnabled s
  /\ trace s' = (trace s ++ [BadgeNotification badgeName badgeIcon;
                              ConsoleLog ("🏆 Badge awarded: " ++ badgeName)])%list.
Proof.
  intros Hnew. apply find_badge_None in Hnew.
  unfold awardBadge, saveProgress, showBadgeNotification, playWelcomeSound. run_m.
  rewrite Hnew. cbn. destruct (soundEnabled s) eqn:E; cbn; rewrite <- ?app_assoc, ?E; repeat split.
Qed.

Lemma same_completed_and_visits_refl s : same_completed_and_visits s s.
Proof. split; reflexivity. Qed.

Lemma same_completed_and_visits_trans a b c :
  same_completed_and_visits a b -> same_completed_and_visits b c ->
  same_completed_and_visits a c.
Proof. intros [H1 H2] [H3 H4]. split; congruence. Qed.

Lemma awardBadge_cases (badgeId badgeName badgeIcon now : string) (s : State) :
  let r := userProgress s in
  let r' := userProgress (exec (awardBadge badgeId badgeName badgeIcon now) s) in
  r' = r
  \/ r' = Progress.mk (Progress.completedProcedures r)
            (Progress.badges r ++ [Badge.mk badgeId badgeName badgeIcon now])%list
            (soundEnabled s) (Progress.visitCount r).
Proof.
  cbv zeta. destruct (decide (badgeId ∈ badge_ids (userProgress s))) as [Hin | Hnew].
  - left. unfold exec. now rewrite awardBadge_existing.
  - right. apply (awardBadge_new badgeId badgeName badgeIcon now s Hnew).
Qed.

Lemma awardBadge_keeps_completed badgeId badgeName badgeIcon now :
  preserves same_completed_and_visits (awardBadge badgeId badgeName badgeIcon now).
Proof.
  intros s. unfold same_completed_and_visits.
  destruct (awardBadge_cases badgeId badgeName badgeIcon now s) as [E | E];
    cbv zeta in E; rewrite E; split; reflexivity.
Qed.

Lemma handle_keeps_completed intent : preserves same_completed_and_visits (handle intent).
Proof.
  apply handle_frame;
    first [ exact same_completed_and_visits_refl | exact same_completed_and_visits_trans
          | exact awardBadge_keeps_completed | idtac ];
    try (intros; split; reflexivity).
Qed.

(** C10: no operation changes [completedProcedures] or [visitCount];
    [awardBadge] either leaves the record as it is or appends one badge and
    copies the sound flag into [soundEnabled]. *)
Theorem completed_and_visits_untouched (intents : list Intent) (s : State) :
  Progress.completedProcedures (userProgress (run intents s))
  = Progress.completedProcedures (userProgress s)
  /\ Progress.visitCount (userProgress (run intents s)) = Progress.visitCount (userProgress s)
  /\ (forall badgeId badgeName badgeIcon now,
        let r := userProgress s in
        let r' := userProgress (exec (awardBadge badgeId badgeName badgeIcon now) s) in
        r' = r
        \/ r' = Progress.mk (Progress.completedProcedures r)
                  (Progress.badges r ++ [Badge.mk badgeId badgeName badgeIcon now])%list
                  (soundEnabled s) (Progress.visitCount r)).
Proof.
  assert (H : same_completed_and_visits s (run intents s)).
  { revert s. induction intents as [ | intent intents IH ]; intros s; simpl.
    - apply same_completed_and_visits_refl.
    - eapply same_completed_and_visits_trans; [ apply handle_keeps_completed | apply IH ]. }
  destruct H as [H1 H2]. split; [ exact H1 | ]. split; [ exact H2 | ].
  intros. apply awardBadge_cases.
Qed.

Lemma keeps_unique_ids_refl s : keeps_unique_ids s s.
Proof. intros H. exact H. Qed.

Lemma keeps_unique_ids_trans a b c :
  keeps_unique_ids a b -> keeps_unique_ids b c -> keeps_unique_ids a c.
Proof. unfold keeps_unique_ids. auto. Qed.

Lemma awardBadge_keeps_unique badgeId badgeName badgeIcon now :
  preserves keeps_unique_ids (awardBadge badgeId badgeName badgeIcon now).
Proof.
  intros s Hnd. destruct (decide (badgeId ∈ badge_ids (userProgress s))) as [Hin | Hnew].
  - unfold exec. now rewrite awardBadge_existing.
  - destruct (awardBadge_new badgeId badgeName badgeIcon now s Hnew) as [E _].
    rewrite E. unfold badge_ids in *. cbn [Progress.badges]. rewrite map_app.
    apply NoDup_app. split; [ exact Hnd | ]. split.
    + intros x Hx Hx'. apply list_elem_of_singleton in Hx'. simpl in Hx'. congruence.
    + apply NoDup_singleton.
Qed.

Lemma handle_keeps_unique intent : preserves keeps_unique_ids (handle intent).
Proof.
  apply handle_frame;
    first [ exact keeps_unique_ids_refl | exact keeps_unique_ids_trans
          | exact awardBadge_keeps_unique | idtac ];
    try (intros; intros H; exact H).
Qed.

Lemma run_keeps_unique intents s : keeps_unique_ids s (run intents s).
Proof.
  revert s. induction intents as [ | intent intents IH ]; intros s; simpl.
  - apply keeps_unique_ids_refl.
  - eapply keeps_unique_ids_trans; [ apply handle_keeps_unique | apply IH ].
Qed.

Lemma awardBadge_then_present (badgeId badgeName badgeIcon now : string) (s : State) :
  badgeId ∈ badge_ids (userProgress (exec (awardBadge badgeId badgeName badgeIcon now) s)).
Proof.
  destruct (decide (badgeId ∈ badge_ids (userProgress s))) as [Hin | Hnew].
  - unfold exec. now rewrite awardBadge_existing.
  - destruct (awardBadge_new badgeId badgeName badgeIcon now s Hnew) as [E _].
    rewrite E. unfold badge_ids. cbn [Progress.badges]. rewrite map_app.
    apply elem_of_app. right. apply list_elem_of_singleton. reflexivity.
Qed.

(** C2: on a record whose badge ids are distinct, after [awardBadge] with
    an id the record holds exactly one badge with that id, however often
    the award is repeated; an award with an id the record already holds
    returns with the whole state as it was (nothing changed, saved or
    notified); and the ids stay distinct through any sequence of
    operations. *)
Theorem awardBadge_idempotent (s : State) (badgeId badgeName badgeIcon now : string) :
  NoDup (badge_ids (userProgress s)) ->
  let award := awardBadge badgeId badgeName badgeIcon now in
  let s1 := exec award s in
  (forall n, count_id badgeId (userProgress (Nat.iter n (exec award) s1)) = 1%nat)
  /\ (forall badgeName' badgeIcon' now',
        awardBadge badgeId badgeName' badgeIcon' now' s1 = (Normal tt, s1))
  /\ (forall intents, NoDup (badge_ids (userProgress (run intents s)))).
Proof.
  intros Hnd award s1.
  pose proof (awardBadge_then_present badgeId badgeName badgeIcon now s) as Hin.
  fold award in Hin. fold s1 in Hin.
  assert (Hagain : forall badgeName' badgeIcon' now',
            awardBadge badgeId badgeName' badgeIcon' now' s1 = (Normal tt, s1)).
  { intros. now apply awardBadge_existing. }
  split; [ | split; [ exact Hagain | ] ].
  - intros n. assert (E : Nat.iter n (exec award) s1 = s1).
    { induction n as [ | n IH ]; simpl; [ reflexivity | ].
      rewrite IH. unfold exec, award. now rewrite Hagain. }
    rewrite E. apply count_present; [ | exact Hin ].
    apply (awardBadge_keeps_unique badgeId badgeName badgeIcon now s Hnd).
  - intros intents. now apply run_keeps_unique.
Qed.

Lemma awardBadge_idempotent_witness :
  NoDup (badge_ids (userProgress fresh_state))
  /\ count_id "brave" (userProgress
       (run [AwardBadge "brave" "Brave Patient" "*" "2024-05-01T10:00:00.000Z";
             AwardBadge "brave" "Brave Patient" "*" "2024-05-02T10:00:00.000Z"] fresh_state))
     = 1%nat.
Proof.
  assert (Hnd : NoDup (badge_ids (userProgress fresh_state))) by (vm_compute; constructor).
  split; [ exact Hnd | ].
  destruct (awardBadge_idempotent fresh_state "brave" "Brave Patient" "*"
              "2024-05-01T10:00:00.000Z" Hnd) as (Hcount & Hagain & _).
  cbn [run fold_left handle]. unfold exec at 1. rewrite Hagain. apply (Hcount 0%nat).
Defined.

(** * Sound toggle *)

Lemma same_store_refl s : same_store s s.
Proof. repeat split. Qed.

Lemma same_store_trans a b c : same_store a b -> same_store b c -> same_store a c.
Proof. intros (H1 & H2 & H3) (H4 & H5 & H6). repeat split; congruence. Qed.

Lemma init_same_store : preserves same_store init.
Proof.
  apply init_frame; first [ exact same_store_refl | exact same_store_trans | idtac ];
    intros; repeat split.
Qed.

Lemma toggleSound_registered (s : State) (icon : string) :
  soundToggle (document s) = true -> soundIcon (document s) = Some icon ->
  let s' := exec toggleSound s in
  soundEnabled s' = negb (soundEnabled s)
  /\ userProgress s' = Progress.set_soundEnabled (negb (soundEnabled s)) (userProgress s)
  /\ localStorage s'
     = <[storage_key := JSON_stringify (Progress.to_json (userProgress s'))]> (localStorage s)
  /\ soundToggle (document s') = true
  /\ soundIcon (document s') = Some (if negb (soundEnabled s) then "🔊" else "🔇")
  /\ outcome toggleSound s = Normal tt.
Proof.
  intros Ht Hi. unfold toggleSound, saveProgress. run_m. rewrite Ht, Hi. cbn.
  repeat split; assumption.
Qed.

Lemma run_gets {A B} (f : State -> A) (k : A -> M B) (s : State) :
  (gets f ≫= k) s = k (f s) s.
Proof. reflexivity. Qed.

Lemma outcome_then {A B} (m : M A) (k : M B) (s : State) :
  outcome (m ;; k) s = match outcome m s with
                       | Normal _ => outcome k (exec m s)
                       | Throw e => Throw e
                       end.
Proof.
  unfold exec, outcome, mbind, M_bind. destruct (m s) as [[a | e] s']; reflexivity.
Qed.

Lemma render_progress_throws (s : State) (e : JsError) :
  outcome (animateProgressCircle ;; animateBadges) s = Throw e -> e = TypeError.
Proof.
  unfold animateProgressCircle, animateBadges. run_m.
  destruct (progressRing (document s)); cbn;
    destruct (proceduresCompleted (document s)); cbn;
    destruct (badgesEarned (document s)); cbn;
    destruct (badgesContainer (document s)); cbn; intros H;
    first [ discriminate H | injection H as <-; reflexivity ].
Qed.

Lemma updateProgressDisplay_throws (s : State) (e : JsError) :
  outcome updateProgressDisplay s = Throw e -> e = TypeError.
Proof.
  unfold outcome, updateProgressDisplay. rewrite run_gets.
  destruct (getElementById _ _) as [[i el] | ]; [ | discriminate ].
  destruct (classList_contains _ _); [ apply render_progress_throws | discriminate ].
Qed.

Lemma playWelcomeSound_returns (s : State) : outcome playWelcomeSound s = Normal tt.
Proof. unfold playWelcomeSound. run_m. destruct (soundEnabled s); reflexivity. Qed.

(** [init] throws nothing but the [TypeError] of the progress display. *)
Lemma init_throws (s : State) (e : JsError) : outcome init s = Throw e -> e = TypeError.
Proof.
  unfold init. rewrite outcome_then. cbn [outcome console_log modify fst].
  rewrite outcome_then.
  destruct (outcome updateProgressDisplay _) as [[] | e'] eqn:U.
  - rewrite outcome_then, playWelcomeSound_returns. discriminate.
  - intros H. injection H as <-. exact (updateProgressDisplay_throws _ _ U).
Qed.

(** The constructor on a storage that holds a progress record. *)
Lemma constructor_stored (storage : gmap string string) (page : Dom) (r : Progress.t) :
  loadProgress storage = Normal (Progress.to_json r) ->
  constructor storage page
  = match readyState page with
    | Loading => Deferred (mkState "home" true r storage page [] [])
    | _ => match outcome init (mkState "home" true r storage page [] []) with
           | Normal _ => Built (exec init (mkState "home" true r storage page [] []))
           | Throw e => Crashed e
           end
    end.
Proof.
  intros L. unfold constructor. rewrite L. cbn [typed]. rewrite progress_of_to_json.
  destruct (readyState page); reflexivity.
Qed.

(** C8 (as amended): where the toggle is wired (both [#sound-toggle] and
    [.sound-icon] are in the page), one click negates the controller's
    [soundEnabled] and two clicks bring it back; each click writes the
    resulting value into the record and saves it, so that [loadProgress]
    returns a record with that value.  The value does not come back as
    the setting of the next controller: on a reload, whatever the page,
    the constructor reads the stored text (it can fail only with the
    [TypeError] of [init]), the new controller's record holds the saved
    value, and its own [soundEnabled] is [true] whatever was saved. *)
Theorem toggleSound_twice (s : State) (icon : string) :
  soundToggle (document s) = true -> soundIcon (document s) = Some icon ->
  let s1 := exec toggleSound s in
  let s2 := exec toggleSound s1 in
  soundEnabled s1 = negb (soundEnabled s)
  /\ soundEnabled s2 = soundEnabled s
  /\ Progress.soundEnabled (userProgress s1) = soundEnabled s1
  /\ Progress.soundEnabled (userProgress s2) = soundEnabled s2
  /\ loadProgress (localStorage s1) = Normal (Progress.to_json (userProgress s1))
  /\ loadProgress (localStorage s2) = Normal (Progress.to_json (userProgress s2))
  /\ (forall page,
        match constructor (localStorage s2) page with
        | Built s3 | Deferred s3 =>
            soundEnabled s3 = true
            /\ Progress.soundEnabled (userProgress s3) = soundEnabled s
        | Crashed e => e = TypeError
        | NotARecord _ => False
        end).
Proof.
  intros Ht Hi s1 s2.
  destruct (toggleSound_registered s icon Ht Hi) as (E1 & U1 & L1 & T1 & I1 & _).
  fold s1 in E1, U1, L1, T1, I1.
  destruct (toggleSound_registered s1 _ T1 I1) as (E2 & U2 & L2 & _).
  fold s2 in E2, U2, L2.
  assert (Hload : forall (a b : State),
            localStorage b = <[storage_key := JSON_stringify (Progress.to_json (userProgress b))]>
                               (localStorage a) ->
            loadProgress (localStorage b) = Normal (Progress.to_json (userProgress b))).
  { intros a b E. eapply loadProgress_stored.
    - rewrite E. apply lookup_insert_eq.
    - apply JSON_parse_record. }
  assert (E2' : soundEnabled s2 = soundEnabled s) by (rewrite E2, E1; apply negb_involutive).
  split; [ exact E1 | ]. split; [ exact E2' | ].
  split; [ rewrite U1, E1; reflexivity | ].
  split; [ rewrite U2, E2; reflexivity | ].
  split; [ exact (Hload s s1 L1) | ]. split; [ exact (Hload s1 s2 L2) | ].
  assert (Hr : Progress.soundEnabled (userProgress s2) = soundEnabled s).
  { rewrite U2, E1. cbn [Progress.soundEnabled Progress.set_soundEnabled].
    apply negb_involutive. }
  intros page. rewrite (constructor_stored _ page _ (Hload s1 s2 L2)).
  set (s0 := mkState "home" true (userProgress s2) (localStorage s2) page [] []).
  destruct (init_same_store s0) as (EU & _ & ES).
  destruct (readyState page); [ split; [ reflexivity | exact Hr ] | | ];
    (destruct (outcome init s0) as [[] | e] eqn:O;
     [ split; [ exact ES | rewrite EU; exact Hr ] | exact (init_throws _ _ O) ]).
Qed.

Lemma toggleSound_twice_witness :
  soundEnabled (run [ToggleSound; ToggleSound] fresh_state) = soundEnabled fresh_state
  /\ loadProgress (localStorage (run [ToggleSound] fresh_state))
     = Normal (Progress.to_json (Progress.mk [] [] false 0)).
Proof.
  destruct (toggleSound_twice fresh_state "🔊" eq_refl eq_refl) as (_ & E2 & _ & _ & L1 & _).
  split; [ exact E2 | ]. cbn [run fold_left handle]. rewrite L1. vm_compute. reflexivity.
Defined.

(** C8, the claim as stated fails.  With the sound switched off, two more
    clicks leave it off and save that; after a reload the controller's
    [soundEnabled] is [true]: the final value did not survive.  And read
    for the record's field, two clicks are not an involution: on the
    reloaded controller, whose record says off while its flag says on,
    they leave the field on. *)
Lemma toggled_sound_lost_on_reload :
  soundEnabled (run [ToggleSound] fresh_state) = false
  /\ soundEnabled (run [ToggleSound; ToggleSound; ToggleSound] fresh_state) = false
  /\ loadProgress (localStorage (run [ToggleSound; ToggleSound; ToggleSound] fresh_state))
     = Normal (Progress.to_json (Progress.mk [] [] false 0))
  /\ match constructor (localStorage (run [ToggleSound; ToggleSound; ToggleSound] fresh_state))
             sample_page with
     | Built s => soundEnabled s = true
     | _ => False
     end
  /\ Progress.soundEnabled (userProgress muted_then_reloaded) = false
  /\ Progress.soundEnabled (userProgress (run [ToggleSound; ToggleSound] muted_then_reloaded))
     = true.
Proof.
  split; [ vm_compute; reflexivity | ]. split; [ vm_compute; reflexivity | ].
  split; [ vm_compute; reflexivity | ]. split; [ vm_compute; reflexivity | ].
  split; vm_compute; reflexivity.
Qed.

(** After a reload the controller's own flag is [true] whatever was
    saved. *)
Lemma reload_sound_flag (s s' : State) :
  reload s = Built s' \/ reload s = Deferred s' -> soundEnabled s' = true.
Proof.
  unfold reload, constructor. destruct (loadProgress _) as [v | e]; [ | intros [H | H]; discriminate H ].
  destruct (typed v) as [r | ]; [ | intros [H | H]; discriminate H ].
  destruct (init_same_store (mkState "home" true r (localStorage s) (document s) [] []))
    as (_ & _ & ES).
  destruct (readyState (document s));
    [ intros [H | H]; [ discriminate H | injection H as <-; reflexivity ] | | ];
    (destruct (outcome init _); intros [H | H]; try discriminate H;
     injection H as <-; exact ES).
Qed.

(** * Procedure modal *)

Lemma getProcedureData_fallback (procedureType : string) :
  procedures procedureType = Missing -> getProcedureData procedureType = Own cleaning_entry.
Proof. intros H. unfold getProcedureData. rewrite H. reflexivity. Qed.

Lemma getProcedureData_found (procedureType : string) : getProcedureData procedureType <> Missing.
Proof.
  unfold getProcedureData. destruct (procedures procedureType) eqn:E; try discriminate.
Qed.

Lemma showProcedureModal_present (procedureType : string) (s : State)
    (cl : gset string) (t c : JsValue) :
  modal (document s) = Some cl -> modalTitle (document s) = Some t ->
  modalContent (document s) = Some c ->
  let s' := exec (showProcedureModal procedureType) s in
  modal (document s') = Some (classList_add "show" cl)
  /\ modalTitle (document s') = Some (title_of (getProcedureData procedureType))
  /\ modalContent (document s') = Some (content_of (getProcedureData procedureType))
  /\ bodyOverflow (document s') = "hidden"
  /\ same_store s s'
  /\ outcome (showProcedureModal procedureType) s = Normal tt.
Proof.
  intros Hm Ht Hc. unfold showProcedureModal. run_m. rewrite Hm, Ht, Hc. cbn.
  rewrite Hm. repeat split.
Qed.

Lemma show_in_added (cl : gset string) : classList_contains "show" (classList_add "show" cl) = true.
Proof. unfold classList_contains, classList_add. apply bool_decide_eq_true. set_solver. Qed.

Lemma show_not_in_removed (cl : gset string) :
  classList_contains "show" (classList_remove "show" cl) = false.
Proof.
  unfold classList_contains, classList_remove. apply bool_decide_eq_false. intros H.
  apply elem_of_difference in H as [_ H]. apply H. now apply elem_of_singleton.
Qed.

(** C5 (as amended): for every procedure id, one of the four or not,
    [showProcedureModal] raises nothing and, when the modal's three
    elements are in the page, opens the modal. *)
Theorem showProcedureModal_opens (procedureType : string) (s : State)
    (cl : gset string) (t c : JsValue) :
  modal (document s) = Some cl -> modalTitle (document s) = Some t ->
  modalContent (document s) = Some c ->
  outcome (showProcedureModal procedureType) s = Normal tt
  /\ modal_open (exec (showProcedureModal procedureType) s) = true
  /\ bodyOverflow (document (exec (showProcedureModal procedureType) s)) = "hidden".
Proof.
  intros Hm Ht Hc.
  destruct (showProcedureModal_present procedureType s cl t c Hm Ht Hc)
    as (M & _ & _ & B & _ & O).
  split; [ exact O | ]. split; [ | exact B ].
  unfold modal_open. rewrite M. apply show_in_added.
Qed.

Lemma showProcedureModal_opens_witness :
  outcome (showProcedureModal "dentures") fresh_state = Normal tt
  /\ modal_open (exec (showProcedureModal "dentures") fresh_state) = true.
Proof.
  destruct (showProcedureModal_opens "dentures" fresh_state {["modal"]} (str "") (str "")
              eq_refl eq_refl eq_refl) as (O & M & _).
  split; assumption.
Defined.

(** C5, the claim as stated fails: the unknown id [dentures] is not
    rejected; the modal opens, on the cleaning entry. *)
Lemma unknown_procedure_opens_modal :
  procedures "dentures" = Missing
  /\ modal_open fresh_state = false
  /\ outcome (showProcedureModal "dentures") fresh_state = Normal tt
  /\ modal_open (exec (showProcedureModal "dentures") fresh_state) = true.
Proof. vm_compute. repeat split. Qed.

(** C9, at the failing input: [constructor] is not one of the four ids,
    yet the lookup finds the member every object inherits, so no fallback
    happens and the modal opens with [undefined] for title and content,
    not with the cleaning entry. *)
Theorem inherited_key_defeats_fallback :
  procedures "constructor" = Inherited "constructor"
  /\ getProcedureData "constructor" <> Own cleaning_entry
  /\ modal_open (exec (showProcedureModal "constructor") fresh_state) = true
  /\ modalTitle (document (exec (showProcedureModal "constructor") fresh_state))
     = Some undefined
  /\ modalContent (document (exec (showProcedureModal "constructor") fresh_state))
     = Some undefined
  /\ modalTitle (document (exec (showProcedureModal "dentures") fresh_state))
     = Some (str (title cleaning_entry)).
Proof.
  split; [ reflexivity | ]. split; [ discriminate | ].
  vm_compute. repeat split.
Qed.

Lemma nextProcedureStep_present (procedureType step : string) (s : State) (c : JsValue) :
  modalContent (document s) = Some c ->
  let s' := exec (nextProcedureStep procedureType step) s in
  modal (document s') = modal (document s)
  /\ modalTitle (document s') = modalTitle (document s)
  /\ modalContent (document s') = Some (str (getProcedureStepContent procedureType step))
  /\ same_store s s'
  /\ outcome (nextProcedureStep procedureType step) s = Normal tt.
Proof.
  intros Hc. unfold nextProcedureStep, playClickSound, playTone. run_m. rewrite Hc. cbn.
  destruct (soundEnabled s) eqn:E; cbn; rewrite ?E; cbn; repeat split; rewrite ?E; reflexivity.
Qed.

Lemma closeModal_present (s : State) (cl : gset string) :
  modal (document s) = Some cl ->
  let s' := exec closeModal s in
  modal (document s') = Some (classList_remove "show" cl)
  /\ bodyOverflow (document s') = ""
  /\ same_store s s'
  /\ outcome closeModal s = Normal tt.
Proof.
  intros Hm. unfold closeModal, playClickSound, playTone. run_m. rewrite Hm. cbn.
  destruct (soundEnabled s) eqn:E; cbn; rewrite ?E; cbn; rewrite Hm;
    repeat split; rewrite ?E; reflexivity.
Qed.

Lemma last_cons_default {A} (x d : A) (l : list A) : List.last (x :: l) d = List.last l x.
Proof.
  revert x d. induction l as [ | y l IH ]; intros x d; [ reflexivity | ].
  change (List.last (x :: y :: l) d) with (List.last (y :: l) d). rewrite (IH y d), (IH y x). reflexivity.
Qed.

Lemma advance_steps (procedureType : string) (steps : list string) :
  forall (s : State) (c : JsValue),
    modalContent (document s) = Some c ->
    let s' := run (map (AdvanceStep procedureType) steps) s in
    modal (document s') = modal (document s)
    /\ modalContent (document s')
       = Some (List.last (map (fun step => str (getProcedureStepContent procedureType step)) steps) c)
    /\ same_store s s'.
Proof.
  induction steps as [ | step steps IH ]; intros s c Hc.
  - simpl. split; [ reflexivity | ]. split; [ exact Hc | apply same_store_refl ].
  - destruct (nextProcedureStep_present procedureType step s c Hc) as (M & _ & C & S & _).
    destruct (IH _ _ C) as (M' & C' & S'). cbv zeta in M, C, S, M', C', S' |- *.
    change (run (map (AdvanceStep procedureType) (step :: steps)) s)
      with (run (map (AdvanceStep procedureType) steps)
              (exec (nextProcedureStep procedureType step) s)).
    split; [ rewrite M'; exact M | ]. split; [ | eapply same_store_trans; eassumption ].
    rewrite C'. f_equal. symmetry. apply last_cons_default.
Qed.

(** C1 (as amended): with the modal's elements in the page,
    [showProcedureModal('cleaning')] opens the modal on the cleaning
    entry, whose content is the SHOW step.  [nextProcedureStep] only
    replaces the content by the text of the step it is given: after any
    run of steps the modal is still open, and the record and the storage
    are what they were, so no badge has been awarded.  The modal closes
    through [closeModal], which awards nothing either. *)
Theorem modal_flow (s : State) (cl : gset string) (t c : JsValue) :
  modal (document s) = Some cl -> modalTitle (document s) = Some t ->
  modalContent (document s) = Some c ->
  let s1 := exec (showProcedureModal "cleaning") s in
  (modal_open s1 = true
   /\ modalTitle (document s1) = Some (str (title cleaning_entry))
   /\ modalContent (document s1) = Some (str (content cleaning_entry)))
  /\ (forall steps : list string,
        let s2 := run (map (AdvanceStep "cleaning") steps) s1 in
        modal_open s2 = true
        /\ modalContent (document s2)
           = Some (List.last (map (fun step => str (getProcedureStepContent "cleaning" step)) steps)
                     (str (content cleaning_entry)))
        /\ userProgress s2 = userProgress s
        /\ localStorage s2 = localStorage s
        /\ modal_open (exec closeModal s2) = false
        /\ userProgress (exec closeModal s2) = userProgress s
        /\ localStorage (exec closeModal s2) = localStorage s).
Proof.
  intros Hm Ht Hc s1.
  destruct (showProcedureModal_present "cleaning" s cl t c Hm Ht Hc)
    as (M1 & T1 & C1 & _ & (U1 & L1 & _) & _).
  fold s1 in M1, T1, C1, U1, L1.
  assert (O1 : modal_open s1 = true) by (unfold modal_open; rewrite M1; apply show_in_added).
  split; [ split; [ exact O1 | split; [ exact T1 | exact C1 ] ] | ].
  intros steps s2.
  destruct (advance_steps "cleaning" steps s1 _ C1) as (M2 & C2 & (U2 & L2 & _)).
  fold s2 in M2, C2, U2, L2. rewrite M1 in M2.
  destruct (closeModal_present s2 _ M2) as (M3 & _ & (U3 & L3 & _) & _).
  split; [ unfold modal_open; rewrite M2; apply show_in_added | ].
  split; [ exact C2 | ]. split; [ congruence | ]. split; [ congruence | ].
  split; [ unfold modal_open; rewrite M3; apply show_not_in_removed | ].
  split; congruence.
Qed.

Lemma modal_flow_witness :
  modal_open (run (map (AdvanceStep "cleaning") ["tell"; "do"])
                (exec (showProcedureModal "cleaning") fresh_state)) = true
  /\ userProgress (run (map (AdvanceStep "cleaning") ["tell"; "do"])
                     (exec (showProcedureModal "cleaning") fresh_state))
     = userProgress fresh_state.
Proof.
  destruct (modal_flow fresh_state {["modal"]} (str "") (str "") eq_refl eq_refl eq_refl)
    as (_ & H).
  destruct (H ["tell"; "do"]) as (O & _ & U & _).
  split; [ exact O | exact U ].
Defined.

(** C1, the claim as stated fails: on the third step of the cleaning
    procedure the modal is open and there is no badge; no further step
    closes the modal or awards a badge, and closing the modal awards none
    and saves nothing. *)
Lemma modal_flow_awards_nothing :
  modal_open at_do_step = true
  /\ Progress.badges (userProgress at_do_step) = []
  /\ ~ (exists step, let s4 := exec (nextProcedureStep "cleaning" step) at_do_step in
                     modal_open s4 = false \/ Progress.badges (userProgress s4) <> [])
  /\ modal_open (exec closeModal at_do_step) = false
  /\ Progress.badges (userProgress (exec closeModal at_do_step)) = []
  /\ localStorage (exec closeModal at_do_step) !! storage_key = None.
Proof.
  assert (O : modal_open at_do_step = true) by (vm_compute; reflexivity).
  assert (B : Progress.badges (userProgress at_do_step) = []) by (vm_compute; reflexivity).
  split; [ exact O | ]. split; [ exact B | ]. split.
  - intros [step H]. cbv zeta in H.
    destruct (nextProcedureStep_present "cleaning" step at_do_step
                (str (getProcedureStepContent "cleaning" "do")) eq_refl)
      as (M & _ & _ & (U & _) & _).
    destruct H as [H | H].
    + unfold modal_open in H, O. rewrite M in H. congruence.
    + apply H. rewrite U. exact B.
  - vm_compute. repeat split.
Qed.

(** * Navigation *)

Lemma getElementById_restyled (f : gset string -> gset string) (i : string) (d : Dom) :
  getElementById i d = None ->
  getElementById i (set_sections (map (on_classList f) (sections d)) d) = None.
Proof.
  unfold getElementById. cbn [sections set_sections].
  intros H. apply list_find_None. apply list_find_None in H.
  apply Forall_map. eapply Forall_impl; [ exact H | ].
  intros e He. exact He.
Qed.

Lemma faded_out_inactive (cl : gset string) :
  "active" ∉ classList_add "animate-fadeOut" (classList_remove "active" cl).
Proof.
  unfold classList_add, classList_remove. intros H.
  apply elem_of_union in H as [H | H].
  - apply elem_of_singleton in H. discriminate H.
  - apply elem_of_difference in H as [_ H]. apply H. now apply elem_of_singleton.
Qed.

Lemma navigateToSection_effect (sectionName : string) (activeButton : option ElemRef)
    (s : State) :
  let s' := exec (navigateToSection sectionName activeButton) s in
  currentSection s' = sectionName
  /\ same_store s s'
  /\ (forall e, outcome (navigateToSection sectionName activeButton) s = Throw e ->
        activeButton = None
        /\ querySelector (document s) (section_selector sectionName) = Throw e)
  /\ (outcome (navigateToSection sectionName activeButton) s = Normal tt ->
        sections (document s')
        = map (on_classList (fun cl =>
                 classList_add "animate-fadeOut" (classList_remove "active" cl)))
              (sections (document s))
        /\ timers s' = (timers s ++ [(200, ShowTargetSection sectionName)])%list).
Proof.
  unfold navigateToSection, activate, playClickSound, playTone, section_selector. run_m.
  destruct activeButton as [[i | ] | ]; cbn.
  - destruct (soundEnabled s) eqn:E; cbn; rewrite ?E; cbn;
      (split; [ reflexivity | ]); (split; [ repeat split; rewrite ?E; reflexivity | ]);
      (split; [ discriminate | ]); intros _; split; reflexivity.
  - destruct (soundEnabled s) eqn:E; cbn; rewrite ?E; cbn;
      (split; [ reflexivity | ]); (split; [ repeat split; rewrite ?E; reflexivity | ]);
      (split; [ discriminate | ]); intros _; split; reflexivity.
  - destruct (querySelector (document s) _) as [[[i | ] | ] | e] eqn:Q; cbn;
      try (destruct (soundEnabled s) eqn:E; cbn; rewrite ?E; cbn;
           (split; [ reflexivity | ]); (split; [ repeat split; rewrite ?E; reflexivity | ]);
           (split; [ discriminate | ]); intros _; split; reflexivity).
    split; [ reflexivity | ]. split; [ repeat split | ].
    split; [ | discriminate ]. intros e' He. injection He as <-. split; reflexivity.
Qed.

(** C3 (as amended): [navigateToSection] does not check the name.  For
    every name it sets [currentSection] to it and raises no error of its
    own (the one exception it can end in is that of [document.querySelector]).
    When it returns, every section has lost [active]; the deferred callback
    shows a section only if an element [<name>-section] exists, so for a
    name without one it changes nothing and no section is shown. *)
Theorem navigateToSection_unchecked (sectionName : string) (activeButton : option ElemRef)
    (s : State) :
  let s' := exec (navigateToSection sectionName activeButton) s in
  currentSection s' = sectionName
  /\ (forall e, outcome (navigateToSection sectionName activeButton) s = Throw e ->
        activeButton = None
        /\ querySelector (document s) (section_selector sectionName) = Throw e)
  /\ (outcome (navigateToSection sectionName activeButton) s = Normal tt ->
        no_section_active s'
        /\ timers s' = (timers s ++ [(200, ShowTargetSection sectionName)])%list
        /\ (getElementById (sectionName ++ "-section") (document s) = None ->
              exec (fire (ShowTargetSection sectionName)) s' = s')).
Proof.
  cbv zeta.
  destruct (navigateToSection_effect sectionName activeButton s) as (C & _ & T & N).
  split; [ exact C | ]. split; [ exact T | ].
  intros O. destruct (N O) as (S & Ti). split; [ | split; [ exact Ti | ] ].
  - unfold no_section_active. rewrite S. apply Forall_map, Forall_forall.
    intros el _. apply faded_out_inactive.
  - intros G. unfold fire. run_m.
    assert (G' : getElementById (sectionName ++ "-section")
                   (document (exec (navigateToSection sectionName activeButton) s)) = None).
    { unfold getElementById in *. rewrite S. apply list_find_None. apply list_find_None in G.
      apply Forall_map. eapply Forall_impl; [ exact G | ]. intros el Hel. exact Hel. }
    unfold exec in G'. rewrite G'. reflexivity.
Qed.

Lemma navigateToSection_unchecked_witness :
  currentSection (exec (navigateToSection "nowhere" None) fresh_state) = "nowhere"
  /\ no_section_active (exec (navigateToSection "nowhere" None) fresh_state)
  /\ exec (fire (ShowTargetSection "nowhere")) (exec (navigateToSection "nowhere" None) fresh_state)
     = exec (navigateToSection "nowhere" None) fresh_state.
Proof.
  destruct (navigateToSection_unchecked "nowhere" None fresh_state) as (C & _ & N).
  destruct (N eq_refl) as (A & _ & F).
  split; [ exact C | ]. split; [ exact A | ]. apply F. reflexivity.
Defined.

(** C3, the claim as stated fails: the unknown name [nowhere] is not
    rejected; [currentSection] changes from [home] to it, and the home
    section that was shown is hidden. *)
Lemma unknown_section_is_entered :
  currentSection fresh_state = "home"
  /\ outcome (navigateToSection "nowhere" None) fresh_state = Normal tt
  /\ currentSection (exec (navigateToSection "nowhere" None) fresh_state) = "nowhere"
  /\ currentSection (exec (navigateToSection "nowhere" None) fresh_state)
     <> currentSection fresh_state
  /\ map (fun el => classList_contains "active" (classList el))
         (sections (document fresh_state)) = [true; false; false; false]
  /\ map (fun el => classList_contains "active" (classList el))
         (sections (document (run [Navigate "nowhere" None; TimerFires 3] fresh_state)))
     = [false; false; false; false].
Proof.
  split; [ reflexivity | ]. split; [ vm_compute; reflexivity | ].
  split; [ vm_compute; reflexivity | ]. split; [ vm_compute; discriminate | ].
  split; vm_compute; reflexivity.
Qed.

(** * Further properties *)

(** ** Sound off *)

Section Quiet.
Variable R : State -> State -> Prop.
Hypothesis R_refl : forall s, R s s.
Hypothesis R_trans : forall a b c, R a b -> R b c -> R a c.
Hypothesis R_document : forall v s, R s (set_document v s).
Hypothesis R_timers : forall v s, R s (set_timers v s).
Hypothesis R_currentSection : forall v s, R s (set_currentSection v s).
Hypothesis R_userProgress : forall v s, R s (set_userProgress v s).
Hypothesis R_localStorage : forall v s, R s (set_localStorage v s).
Hypothesis R_effect : forall e s, is_tone e = false -> R s (set_trace (trace s ++ [e])%list s).
Hypothesis R_playTone : forall f d t, preserves R (playTone f d t).

Ltac quiet_step :=
  first
    [ apply (preserves_ret R R_refl) | apply (preserves_gets R R_refl)
    | apply (preserves_throw R R_refl) | apply (preserves_lift R R_refl)
    | apply R_playTone
    | apply preserves_modify; intros;
      first [ apply R_document | apply R_timers | apply R_currentSection
            | apply R_userProgress | apply R_localStorage
            | apply R_effect; reflexivity ]
    | apply (preserves_bind R R_trans); [ | intros ? ]
    | match goal with
      | |- preserves _ (match ?x with _ => _ end) => destruct x
      | |- preserves _ (let _ := _ in _) => cbv zeta
      end ].

Ltac quiet := repeat quiet_step.

Lemma playClickSound_quiet : preserves R playClickSound.
Proof. unfold playClickSound. quiet. Qed.

Lemma playHoverSound_quiet : preserves R playHoverSound.
Proof. unfold playHoverSound. quiet. Qed.

Lemma playWelcomeSound_quiet : preserves R playWelcomeSound.
Proof. unfold playWelcomeSound, setTimeout. quiet. Qed.

Lemma animateProgressCircle_quiet : preserves R animateProgressCircle.
Proof. unfold animateProgressCircle, emit, update_document. quiet. Qed.

Lemma animateBadges_quiet : preserves R animateBadges.
Proof. unfold animateBadges, update_document. quiet. Qed.

Lemma triggerSectionAnimations_quiet sectionName :
  preserves R (triggerSectionAnimations sectionName).
Proof.
  unfold triggerSectionAnimations, animateProcedureCards, animateTipCards, emit.
  repeat first [ apply animateProgressCircle_quiet | apply animateBadges_quiet | quiet_step ].
Qed.

Lemma updateProgressDisplay_quiet : preserves R updateProgressDisplay.
Proof.
  unfold updateProgressDisplay.
  repeat first [ apply animateProgressCircle_quiet | apply animateBadges_quiet | quiet_step ].
Qed.

Lemma navigateToSection_quiet sectionName activeButton :
  preserves R (navigateToSection sectionName activeButton).
Proof.
  unfold navigateToSection, activate, update_document, setTimeout, console_log.
  repeat first [ apply playClickSound_quiet | quiet_step ].
Qed.

Lemma fire_quiet callback : preserves R (fire callback).
Proof.
  unfold fire, update_document.
  repeat first [ apply triggerSectionAnimations_quiet | quiet_step ].
Qed.

Lemma showProcedureModal_quiet procedureType : preserves R (showProcedureModal procedureType).
Proof. unfold showProcedureModal, update_document, console_log. quiet. Qed.

Lemma closeModal_quiet : preserves R closeModal.
Proof.
  unfold closeModal, update_document, console_log.
  repeat first [ apply playClickSound_quiet | quiet_step ].
Qed.

Lemma startProcedure_quiet procedureType : preserves R (startProcedure procedureType).
Proof.
  unfold startProcedure, console_log.
  repeat first [ apply playClickSound_quiet | apply showProcedureModal_quiet | quiet_step ].
Qed.

Lemma nextProcedureStep_quiet procedureType step :
  preserves R (nextProcedureStep procedureType step).
Proof.
  unfold nextProcedureStep, update_document, console_log.
  repeat first [ apply playClickSound_quiet | quiet_step ].
Qed.

Lemma showHelpModal_quiet : preserves R showHelpModal.
Proof.
  unfold showHelpModal, update_document.
  repeat first [ apply playClickSound_quiet | quiet_step ].
Qed.

Lemma saveProgress_quiet : preserves R saveProgress.
Proof. unfold saveProgress. quiet. Qed.

Lemma awardBadge_quiet badgeId badgeName badgeIcon now :
  preserves R (awardBadge badgeId badgeName badgeIcon now).
Proof.
  unfold awardBadge, showBadgeNotification, emit, console_log.
  repeat first [ apply saveProgress_quiet | apply playWelcomeSound_quiet | quiet_step ].
Qed.

Lemma handle_quiet intent : is_toggle intent = false -> preserves R (handle intent).
Proof.
  destruct intent; cbn [handle is_toggle]; intros H; try discriminate H.
  - apply navigateToSection_quiet.
  - apply startProcedure_quiet.
  - apply showProcedureModal_quiet.
  - apply nextProcedureStep_quiet.
  - apply closeModal_quiet.
  - apply showHelpModal_quiet.
  - apply playHoverSound_quiet.
  - apply saveProgress_quiet.
  - apply awardBadge_quiet.
  - apply updateProgressDisplay_quiet.
  - apply (preserves_bind R R_trans); [ apply (preserves_gets R R_refl) | intros ts ].
    destruct (ts !! i) as [[delay callback] | ]; [ | apply (preserves_ret R R_refl) ].
    apply (preserves_bind R R_trans); [ | intros _; apply fire_quiet ].
    apply preserves_modify. intros s. apply R_timers.
Qed.

Lemma run_quiet intents s :
  Forall (fun intent => is_toggle intent = false) intents -> R s (run intents s).
Proof.
  intros H. revert s. induction H as [ | intent intents Hi Hs IH ]; intros s; simpl.
  - apply R_refl.
  - eapply R_trans; [ apply handle_quiet; exact Hi | apply IH ].
Qed.
End Quiet.

Lemma tones_snoc_quiet (effects : list Effect) (e : Effect) :
  is_tone e = false -> tones (effects ++ [e]) = tones effects.
Proof.
  intros H. unfold tones. rewrite filter_app, filter_cons, filter_nil.
  destruct (decide (is_tone e = true)) as [E | _]; [ congruence | apply app_nil_r ].
Qed.

Lemma stays_silent_refl s : stays_silent s s.
Proof. intros H. split; [ exact H | reflexivity ]. Qed.

Lemma stays_silent_trans a b c : stays_silent a b -> stays_silent b c -> stays_silent a c.
Proof.
  intros Hab Hbc Ha. destruct (Hab Ha) as [Hb Eb]. destruct (Hbc Hb) as [Hc Ec].
  split; [ exact Hc | congruence ].
Qed.

Lemma playTone_silent f d t : preserves stays_silent (playTone f d t).
Proof.
  intros s Hs. unfold playTone. run_m. rewrite Hs. cbn. split; [ exact Hs | reflexivity ].
Qed.

(** X1: while [soundEnabled] is false no tone is played, whatever happens
    short of a click on the sound toggle: not by the click, hover or
    welcome sounds, and not by the timers of a welcome melody that was
    scheduled while the sound was still on ([playTone] checks the flag
    again when it runs). *)
Theorem sound_off_is_silent (intents : list Intent) (s : State) :
  soundEnabled s = false ->
  Forall (fun intent => is_toggle intent = false) intents ->
  soundEnabled (run intents s) = false
  /\ tones (trace (run intents s)) = tones (trace s).
Proof.
  intros Hs Hi.
  apply (run_quiet stays_silent stays_silent_refl stays_silent_trans); try assumption.
  - intros v s0 H. split; [ exact H | reflexivity ].
  - intros v s0 H. split; [ exact H | reflexivity ].
  - intros v s0 H. split; [ exact H | reflexivity ].
  - intros v s0 H. split; [ exact H | reflexivity ].
  - intros v s0 H. split; [ exact H | reflexivity ].
  - intros e s0 He H. split; [ exact H | ]. cbn [trace set_trace]. now apply tones_snoc_quiet.
  - apply playTone_silent.
Qed.

Lemma sound_off_is_silent_witness :
  timers (run [ToggleSound] fresh_state) = welcome_melody
  /\ tones (trace (run [TimerFires 0; Hover; Navigate "tips" None; CloseModal]
                     (run [ToggleSound] fresh_state)))
     = tones (trace (run [ToggleSound] fresh_state)).
Proof.
  split; [ vm_compute; reflexivity | ].
  apply (sound_off_is_silent [TimerFires 0; Hover; Navigate "tips" None; CloseModal]
           (run [ToggleSound] fresh_state)).
  - vm_compute. reflexivity.
  - repeat constructor.
Defined.

(** ** What the operations never do to the record and the storage *)

Lemma badges_grow_refl s : badges_grow s s.
Proof. exists []. symmetry. apply app_nil_r. Qed.

Lemma badges_grow_trans a b c : badges_grow a b -> badges_grow b c -> badges_grow a c.
Proof.
  intros [m1 H1] [m2 H2]. exists (m1 ++ m2)%list. rewrite H2, H1. symmetry. apply app_assoc.
Qed.

Lemma awardBadge_grows badgeId badgeName badgeIcon now :
  preserves badges_grow (awardBadge badgeId badgeName badgeIcon now).
Proof.
  intros s. destruct (awardBadge_cases badgeId badgeName badgeIcon now s) as [E | E];
    cbv zeta in E; unfold badges_grow; rewrite E.
  - apply badges_grow_refl.
  - eexists. reflexivity.
Qed.

(** X2: badges are only ever appended.  Through any sequence of
    operations the badges held at the start stay, unchanged and in their
    order, at the front of the list; no operation removes, edits or
    reorders a badge. *)
Theorem badges_only_grow (intents : list Intent) (s : State) :
  exists more,
    Progress.badges (userProgress (run intents s))
    = (Progress.badges (userProgress s) ++ more)%list.
Proof.
  apply (run_frame badges_grow badges_grow_refl badges_grow_trans);
    try (intros v s0; exists []; symmetry; apply app_nil_r).
  - intros s0. exists []. symmetry. apply app_nil_r.
  - apply awardBadge_grows.
Qed.

Lemma other_keys_kept_refl s : other_keys_kept s s.
Proof. intros k _. reflexivity. Qed.

Lemma other_keys_kept_trans a b c :
  other_keys_kept a b -> other_keys_kept b c -> other_keys_kept a c.
Proof. intros H1 H2 k Hk. rewrite (H2 k Hk). apply (H1 k Hk). Qed.

Lemma saveProgress_other_keys : preserves other_keys_kept saveProgress.
Proof.
  intros s k Hk. unfold saveProgress. run_m. apply lookup_insert_ne. intros Ek. apply Hk. symmetry. exact Ek.
Qed.

Lemma awardBadge_other_keys badgeId badgeName badgeIcon now :
  preserves other_keys_kept (awardBadge badgeId badgeName badgeIcon now).
Proof.
  intros s k Hk. destruct (decide (badgeId ∈ badge_ids (userProgress s))) as [Hin | Hnew].
  - unfold exec. now rewrite awardBadge_existing.
  - destruct (awardBadge_new badgeId badgeName badgeIcon now s Hnew) as (_ & E & _).
    rewrite E. apply lookup_insert_ne. intros Ek. apply Hk. symmetry. exact Ek.
Qed.

(** X3: the controller writes one key only.  Through any sequence of
    operations every item of [localStorage] under a key other than
    [dentalKidsProgress] is left as it was. *)
Theorem only_progress_key_written (intents : list Intent) (s : State) (k : string) :
  k <> storage_key ->
  localStorage (run intents s) !! k = localStorage s !! k.
Proof.
  intros Hk.
  assert (H : other_keys_kept s (run intents s)).
  { apply (run_frame other_keys_kept other_keys_kept_refl other_keys_kept_trans);
      try (intros v s0 k0 Hk0; reflexivity).
    - apply saveProgress_other_keys.
    - apply awardBadge_other_keys. }
  exact (H k Hk).
Qed.

Lemma only_progress_key_written_witness :
  localStorage (run [ToggleSound; Save] (set_localStorage {["theme" := "dark"]} fresh_state))
    !! "theme" = Some "dark".
Proof.
  rewrite (only_progress_key_written [ToggleSound; Save]
             (set_localStorage {["theme" := "dark"]} fresh_state) "theme").
  - reflexivity.
  - discriminate.
Defined.

Lemma loadable_stored (s : State) (r : Progress.t) :
  localStorage s !! storage_key = Some (JSON_stringify (Progress.to_json r)) -> loadable s.
Proof.
  intros H. exists (Exact (Progress.to_json r)). eapply loadProgress_stored; [ exact H | ].
  apply JSON_parse_record.
Qed.

Lemma saveProgress_loadable : preserves stays_loadable saveProgress.
Proof. intros s _. eexists. apply loadProgress_saved. Qed.

Lemma awardBadge_loadable badgeId badgeName badgeIcon now :
  preserves stays_loadable (awardBadge badgeId badgeName badgeIcon now).
Proof.
  intros s Hs. destruct (decide (badgeId ∈ badge_ids (userProgress s))) as [Hin | Hnew].
  - unfold exec. now rewrite awardBadge_existing.
  - destruct (awardBadge_new badgeId badgeName badgeIcon now s Hnew) as (_ & E & _).
    eapply loadable_stored. rewrite E. apply lookup_insert_eq.
Qed.

(** X4: the controller never stores text that [loadProgress] cannot
    read.  If [loadProgress] returns on the storage at the start, it
    returns on the storage after any sequence of operations, so the
    constructor's call to it on the next page load does not throw. *)
Theorem storage_stays_loadable (intents : list Intent) (s : State) :
  loadable s -> loadable (run intents s).
Proof.
  assert (H : stays_loadable s (run intents s)); [ | exact H ].
  apply (run_frame stays_loadable); try (intros v s0 H; exact H).
  - intros s0 H. exact H.
  - unfold stays_loadable. auto.
  - apply saveProgress_loadable.
  - apply awardBadge_loadable.
Qed.

Lemma storage_stays_loadable_witness :
  loadable (run [ToggleSound; AwardBadge "brave" "Brave" "*" "2024-05-01T10:00:00.000Z"]
              fresh_state).
Proof.
  apply storage_stays_loadable. exists (Progress.to_json Progress.default). reflexivity.
Defined.

(** ** Construction and reload *)

Lemma same_section_refl s : same_section s s.
Proof. reflexivity. Qed.

Lemma same_section_trans a b c : same_section a b -> same_section b c -> same_section a c.
Proof. unfold same_section. congruence. Qed.

Lemma init_same_section : preserves same_section init.
Proof.
  apply init_frame; first [ exact same_section_refl | exact same_section_trans | idtac ];
    intros; reflexivity.
Qed.



Lemma render_progress_returns (s : State) :
  outcome (animateProgressCircle ;; animateBadges) s = Normal tt
  <-> proceduresCompleted (document s) <> None /\ badgesEarned (document s) <> None.
Proof.
  unfold animateProgressCircle, animateBadges. run_m.
  destruct (progressRing (document s)); cbn;
    destruct (proceduresCompleted (document s)); cbn;
    destruct (badgesEarned (document s)); cbn;
    destruct (badgesContainer (document s)); cbn;
    (split; [ intros H; first [ discriminate H | split; discriminate ]
            | intros [H1 H2]; first [ reflexivity | contradiction ] ]).
Qed.

Lemma updateProgressDisplay_returns (s : State) :
  outcome updateProgressDisplay s = Normal tt <-> ~ progress_display_broken (document s).
Proof.
  unfold outcome, updateProgressDisplay, progress_display_broken. rewrite run_gets.
  destruct (getElementById "progress-section" (document s)) as [[i el] | ] eqn:G.
  - unfold classList_contains. destruct (decide ("active" ∈ classList el)) as [A | A].
    + rewrite bool_decide_eq_true_2 by exact A.
      fold (outcome (animateProgressCircle ;; animateBadges) s).
      rewrite render_progress_returns. split.
      * intros [H1 H2] (j & e & E & _ & [H | H]); contradiction.
      * intros H. split; intros E; apply H; exists i, el; tauto.
    + rewrite bool_decide_eq_false_2 by exact A. split; [ | reflexivity ].
      intros _ (j & e & E & Ha & _). injection E as <- <-. contradiction.
  - split; [ | reflexivity ]. intros _ (j & e & E & _). discriminate E.
Qed.

(** [init] returns unless the progress display throws. *)
Lemma init_returns (s : State) :
  outcome init s = Normal tt <-> ~ progress_display_broken (document s).
Proof.
  unfold init. rewrite outcome_then. cbn [outcome console_log modify fst].
  rewrite outcome_then.
  rewrite <- (updateProgressDisplay_returns
                (exec (console_log "🦷 Dental Kids App initializing...") s)).
  destruct (outcome updateProgressDisplay _) as [[] | e].
  - rewrite outcome_then, playWelcomeSound_returns. split; reflexivity.
  - split; discriminate.
Qed.

(** X6: what survives a reload.  After [saveProgress], the constructor
    on the same storage and any page finds the saved record.  While the
    document is loading it returns with the record that was in memory
    after the save and leaves [init] for later; on a loaded page it calls
    [init], and returns a controller with that record, on [home] with the
    sound on (the section and the sound flag are not carried over),
    unless [init] throws: that is a [TypeError], the constructor throws it
    too, and it happens exactly when the page shows the progress section
    with one of its two counters missing. *)
Theorem saved_record_survives (s : State) (page : Dom) :
  let saved := exec saveProgress s in
  let start := mkState "home" true (userProgress saved) (localStorage saved) page [] [] in
  userProgress saved = Progress.set_soundEnabled (soundEnabled s) (userProgress s)
  /\ (readyState page = Loading -> constructor (localStorage saved) page = Deferred start)
  /\ (readyState page <> Loading -> ~ progress_display_broken page ->
      exists s', constructor (localStorage saved) page = Built s'
                 /\ userProgress s' = userProgress saved
                 /\ currentSection s' = "home"
                 /\ soundEnabled s' = true)
  /\ (readyState page <> Loading -> progress_display_broken page ->
      constructor (localStorage saved) page = Crashed TypeError).
Proof.
  intros saved start. split; [ reflexivity | ].
  pose proof (constructor_stored (localStorage saved) page (userProgress saved)
                (loadProgress_saved s)) as C.
  fold start in C. rewrite C.
  destruct (init_same_store start) as (EU & _ & ES).
  pose proof (init_same_section start) as EC. unfold same_section in EC.
  pose proof (init_returns start) as R. cbn [document start] in R.
  split; [ intros ->; reflexivity | ]. split.
  - intros Hl Hok. apply R in Hok. rewrite Hok.
    exists (exec init start).
    split; [ destruct (readyState page); [ contradiction | reflexivity | reflexivity ] | ].
    split; [ exact EU | ]. split; [ exact EC | exact ES ].
  - intros Hl Hbad. destruct (outcome init start) as [[] | e] eqn:O.
    + exfalso. apply (proj1 R); [ reflexivity | exact Hbad ].
    + apply init_throws in O as ->.
      destruct (readyState page); [ contradiction | reflexivity | reflexivity ].
Qed.

Lemma saved_record_survives_witness :
  (exists s', constructor (localStorage (exec saveProgress fresh_state)) sample_page = Built s'
              /\ userProgress s' = userProgress (exec saveProgress fresh_state)
              /\ currentSection s' = "home"
              /\ soundEnabled s' = true)
  /\ constructor (localStorage (exec saveProgress fresh_state))
       (set_sections [mkElement "progress-section" {["content-section"; "active"]}]
          (set_proceduresCompleted None sample_page))
     = Crashed TypeError.
Proof.
  split.
  - apply (saved_record_survives fresh_state sample_page); [ discriminate | ].
    intros (i & el & G & A & [H | H]); [ discriminate H | discriminate H ].
  - apply (saved_record_survives fresh_state); [ discriminate | ].
    exists 0%nat, (mkElement "progress-section" {["content-section"; "active"]}).
    split; [ reflexivity | ]. split; [ | left; reflexivity ].
    unfold is_active. cbn. apply elem_of_union. right. now apply elem_of_singleton.
Defined.

(** ** A new badge *)

(** X7: awarding an id the record does not hold yet appends one badge
    with the given name, icon and time stamp behind the badges already
    there, saves at once (so that [loadProgress] returns the new record),
    sends one notification and one console line, and schedules the
    welcome melody when the sound is on. *)
Theorem awardBadge_appends_and_saves (badgeId badgeName badgeIcon now : string) (s : State) :
  badgeId ∉ badge_ids (userProgress s) ->
  let s' := exec (awardBadge badgeId badgeName badgeIcon now) s in
  Progress.badges (userProgress s')
  = (Progress.badges (userProgress s) ++ [Badge.mk badgeId badgeName badgeIcon now])%list
  /\ loadProgress (localStorage s') = Normal (Progress.to_json (userProgress s'))
  /\ trace s' = (trace s ++ [BadgeNotification badgeName badgeIcon;
                              ConsoleLog ("🏆 Badge awarded: " ++ badgeName)])%list
  /\ timers s' = (timers s ++ (if soundEnabled s then welcome_melody else []))%list
  /\ outcome (awardBadge badgeId badgeName badgeIcon now) s = Normal tt.
Proof.
  intros Hnew. cbv zeta.
  destruct (awardBadge_new badgeId badgeName badgeIcon now s Hnew) as (U & L & _ & T).
  split; [ rewrite U; reflexivity | ].
  split; [ eapply loadProgress_stored;
           [ rewrite L; apply lookup_insert_eq | apply JSON_parse_record ] | ].
  split; [ exact T | ].
  apply find_badge_None in Hnew.
  unfold awardBadge, saveProgress, showBadgeNotification, playWelcomeSound. run_m.
  rewrite Hnew. cbn. destruct (soundEnabled s) eqn:E; cbn; rewrite ?E; cbn.
  - split; [ unfold welcome_melody; rewrite <- !app_assoc; reflexivity | reflexivity ].
  - split; [ symmetry; apply app_nil_r | reflexivity ].
Qed.

Lemma awardBadge_appends_and_saves_witness :
  Progress.badges (userProgress
    (exec (awardBadge "brave" "Brave Patient" "*" "2024-05-01T10:00:00.000Z") fresh_state))
  = [Badge.mk "brave" "Brave Patient" "*" "2024-05-01T10:00:00.000Z"].
Proof.
  destruct (awardBadge_appends_and_saves "brave" "Brave Patient" "*"
              "2024-05-01T10:00:00.000Z" fresh_state) as (B & _).
  - vm_compute. apply not_elem_of_nil.
  - exact B.
Defined.

(** ** The modal *)

Lemma closeModal_keeps_text (s : State) :
  modalTitle (document (exec closeModal s)) = modalTitle (document s)
  /\ modalContent (document (exec closeModal s)) = modalContent (document s).
Proof.
  unfold closeModal, playClickSound, playTone. run_m.
  destruct (modal (document s)); cbn; [ | split; reflexivity ].
  destruct (soundEnabled s) eqn:E; cbn; rewrite ?E; cbn; split; reflexivity.
Qed.

(** X8: closing undoes opening.  With the modal's elements in the page,
    [showProcedureModal] followed by [closeModal] leaves the modal closed
    and the page scrolling again; the title and the content of the
    procedure stay in the closed modal, and the record and the storage are
    untouched. *)
Theorem open_then_close (procedureType : string) (s : State)
    (cl : gset string) (t c : JsValue) :
  modal (document s) = Some cl -> modalTitle (document s) = Some t ->
  modalContent (document s) = Some c ->
  let s1 := exec (showProcedureModal procedureType) s in
  let s2 := exec closeModal s1 in
  (modal_open s1 = true /\ bodyOverflow (document s1) = "hidden")
  /\ modal_open s2 = false
  /\ bodyOverflow (document s2) = ""
  /\ modalTitle (document s2) = Some (title_of (getProcedureData procedureType))
  /\ modalContent (document s2) = Some (content_of (getProcedureData procedureType))
  /\ same_store s s2.
Proof.
  intros Hm Ht Hc s1 s2.
  destruct (showProcedureModal_present procedureType s cl t c Hm Ht Hc)
    as (M1 & T1 & C1 & B1 & S1 & _). fold s1 in M1, T1, C1, B1, S1.
  destruct (closeModal_present s1 _ M1) as (M2 & B2 & S2 & _). fold s2 in M2, B2, S2.
  split; [ split; [ unfold modal_open; rewrite M1; apply show_in_added | exact B1 ] | ].
  split; [ unfold modal_open; rewrite M2; apply show_not_in_removed | ].
  split; [ exact B2 | ].
  destruct (closeModal_keeps_text s1) as [KT KC]. fold s2 in KT, KC.
  split; [ congruence | ]. split; [ congruence | ].
  eapply same_store_trans; eassumption.
Qed.

Lemma open_then_close_witness :
  modal_open (exec closeModal (exec (showProcedureModal "xray") fresh_state)) = false
  /\ modalTitle (document (exec closeModal (exec (showProcedureModal "xray") fresh_state)))
     = Some (title_of (getProcedureData "xray")).
Proof.
  destruct (open_then_close "xray" fresh_state {["modal"]} (str "") (str "")
              eq_refl eq_refl eq_refl) as (_ & O & _ & T & _).
  split; [ exact O | exact T ].
Defined.

(** X9: [getProcedureData] always returns something to show.  Each of
    the four ids gets its own entry; an id that is neither one of the four
    nor the name of a member inherited from [Object.prototype] gets the
    cleaning entry; and the result is never [undefined]. *)
Theorem getProcedureData_lookup (procedureType : string) :
  (procedureType ∈ ["cleaning"; "xray"; "filling"; "checkup"] ->
     exists data, getProcedureData procedureType = Own data
                  /\ procedures procedureType = Own data)
  /\ (procedureType ∉ ["cleaning"; "xray"; "filling"; "checkup"] ->
      procedureType ∉ Object_prototype ->
      getProcedureData procedureType = Own cleaning_entry)
  /\ getProcedureData procedureType <> Missing.
Proof.
  split; [ | split; [ | apply getProcedureData_found ] ].
  - intros H. unfold getProcedureData, procedures.
    repeat (apply elem_of_cons in H as [-> | H]; [ eexists; split; reflexivity | ]).
    now apply elem_of_nil in H.
  - intros Hfour Hproto. apply getProcedureData_fallback. unfold procedures.
    repeat (apply not_elem_of_cons in Hfour as [? Hfour]).
    repeat match goal with
           | |- context [String.eqb procedureType ?x] =>
               destruct (String.eqb_spec procedureType x); [ congruence | ]
           end.
    destruct (existsb (String.eqb procedureType) Object_prototype) eqn:E; [ | reflexivity ].
    apply existsb_exists in E as (x & Hx & Ex). apply String.eqb_eq in Ex. subst x.
    exfalso. apply Hproto. apply list_elem_of_In. exact Hx.
Qed.

Lemma getProcedureData_lookup_witness :
  getProcedureData "whitening" = Own cleaning_entry
  /\ (exists data, getProcedureData "filling" = Own data /\ procedures "filling" = Own data).
Proof.
  destruct (getProcedureData_lookup "whitening") as (_ & F & _).
  destruct (getProcedureData_lookup "filling") as (O & _).
  split.
  - apply F; vm_compute; intros H;
      repeat (apply elem_of_cons in H as [H | H]; [ discriminate H | ]);
      now apply elem_of_nil in H.
  - apply O. do 2 apply list_elem_of_further. apply list_elem_of_here.
Defined.

(** X10: [startProcedure] opens the modal before it looks for the
    card.  With the modal's elements in the page the modal is open on the
    procedure's data when [startProcedure] ends, also when the query for
    the card throws, which is the only way it can throw. *)
Theorem startProcedure_opens (procedureType : string) (s : State)
    (cl : gset string) (t c : JsValue) :
  modal (document s) = Some cl -> modalTitle (document s) = Some t ->
  modalContent (document s) = Some c ->
  let s' := exec (startProcedure procedureType) s in
  modal_open s' = true
  /\ modalTitle (document s') = Some (title_of (getProcedureData procedureType))
  /\ modalContent (document s') = Some (content_of (getProcedureData procedureType))
  /\ same_store s s'
  /\ (forall e, outcome (startProcedure procedureType) s = Throw e ->
        querySelector (document s)
          (markup "[data-procedure=@" ++ procedureType ++ markup "@]") = Throw e).
Proof.
  intros Hm Ht Hc. unfold modal_open.
  unfold startProcedure, showProcedureModal, playClickSound, playTone. run_m.
  destruct (soundEnabled s) eqn:E; cbn; rewrite ?E; cbn; rewrite Hm, Ht, Hc; cbn;
    rewrite Hm; cbn;
    destruct (querySelector (document s) _) as [r | e] eqn:Q; cbn;
    (split; [ apply show_in_added | ]); (split; [ reflexivity | ]);
    (split; [ reflexivity | ]); (split; [ repeat split; rewrite ?E; reflexivity | ]);
    intros e' He; first [ discriminate He | injection He as <-; reflexivity ].
Qed.

Lemma startProcedure_opens_witness :
  modal_open (exec (startProcedure "checkup") fresh_state) = true.
Proof.
  destruct (startProcedure_opens "checkup" fresh_state {["modal"]} (str "") (str "")
              eq_refl eq_refl eq_refl) as (O & _).
  exact O.
Defined.

(** ** Completion rate *)

Lemma calculateCompletionRate_linear (s : State) :
  calculateCompletionRate s
  = (25 * Z.of_nat (length (Progress.completedProcedures (userProgress s))))%Z.
Proof.
  unfold calculateCompletionRate, Math_round. cbv zeta.
  set (n := Z.of_nat _).
  replace (25 * n)%Z with (Qfloor (inject_Z (25 * n) + 1 / 2)).
  - apply Qfloor_comp. unfold Qeq, Qdiv, Qmult, Qplus, Qinv, inject_Z; simpl. lia.
  - unfold Qfloor, Qplus, Qdiv, Qmult, Qinv, inject_Z; simpl.
    symmetry. apply Z.div_unique with (r := 1%Z); lia.
Qed.

(** X11: the completion rate is not capped.  It is never negative, it
    stays within 100 exactly when [completedProcedures] has at most four
    entries, and every further entry (the array is not checked for
    repeats) adds 25. *)
Theorem completion_rate_range (s : State) :
  (0 <= calculateCompletionRate s)%Z
  /\ ((calculateCompletionRate s <= 100)%Z
      <-> (length (Progress.completedProcedures (userProgress s)) <= 4)%nat)
  /\ (forall procedure,
        calculateCompletionRate
          (with_completed (procedure :: Progress.completedProcedures (userProgress s)) s)
        = (calculateCompletionRate s + 25)%Z).
Proof.
  rewrite calculateCompletionRate_linear. split; [ lia | ]. split; [ lia | ].
  intros procedure. rewrite calculateCompletionRate_linear.
  unfold with_completed. cbn [userProgress set_userProgress Progress.completedProcedures length].
  lia.
Qed.

(** ** The current section *)

Lemma saveProgress_same_section : preserves same_section saveProgress.
Proof. intros s. reflexivity. Qed.

Lemma handle_same_section (intent : Intent) :
  is_navigate intent = false -> preserves same_section (handle intent).
Proof.
  assert (Hd : forall (v : Dom) s, same_section s (set_document v s)) by reflexivity.
  assert (Ht : forall (v : list (nat * Callback)) s, same_section s (set_timers v s))
    by reflexivity.
  assert (He : forall (v : list Effect) s, same_section s (set_trace v s)) by reflexivity.
  destruct intent; cbn [handle is_navigate]; intros H; try discriminate H.
  - apply startProcedure_frame; first [ exact same_section_refl | exact same_section_trans | exact Hd | exact Ht | exact He | idtac ].
  - apply showProcedureModal_frame; first [ exact same_section_refl | exact same_section_trans | exact Hd | exact Ht | exact He | idtac ].
  - apply nextProcedureStep_frame; first [ exact same_section_refl | exact same_section_trans | exact Hd | exact Ht | exact He | idtac ].
  - apply closeModal_frame; first [ exact same_section_refl | exact same_section_trans | exact Hd | exact Ht | exact He | idtac ].
  - apply showHelpModal_frame; first [ exact same_section_refl | exact same_section_trans | exact Hd | exact Ht | exact He | idtac ].
  - apply toggleSound_frame; first [ exact same_section_refl | exact same_section_trans | exact Hd | exact Ht | exact He | idtac ].
    intros v s0. reflexivity.
  - apply playHoverSound_frame; first [ exact same_section_refl | exact same_section_trans | exact Hd | exact Ht | exact He | idtac ].
  - apply saveProgress_same_section.
  - intros s. destruct (decide (badgeId ∈ badge_ids (userProgress s))) as [Hin | Hnew].
    + unfold exec. now rewrite awardBadge_existing.
    + unfold same_section, awardBadge, saveProgress, showBadgeNotification, playWelcomeSound.
      run_m. apply find_badge_None in Hnew. rewrite Hnew. cbn.
      destruct (soundEnabled s); reflexivity.
  - apply updateProgressDisplay_frame; first [ exact same_section_refl | exact same_section_trans | exact Hd | exact Ht | exact He | idtac ].
  - apply (preserves_bind same_section same_section_trans);
      [ apply (preserves_gets same_section same_section_refl) | intros ts ].
    destruct (ts !! i) as [[delay callback] | ];
      [ | apply (preserves_ret same_section same_section_refl) ].
    apply (preserves_bind same_section same_section_trans).
    + apply preserves_modify. intros s. reflexivity.
    + intros _. apply fire_frame; first [ exact same_section_refl | exact same_section_trans | exact Hd | exact Ht | exact He | idtac ].
Qed.

(** X12: only navigation moves the controller to another section.
    Through any sequence of operations without a call of
    [navigateToSection] (modal, sound, badges, saving, timers that fire),
    [currentSection] is what it was; in particular the callback of a
    navigation shows a section without touching [currentSection]. *)
Theorem section_changed_only_by_navigation (intents : list Intent) (s : State) :
  Forall (fun intent => is_navigate intent = false) intents ->
  currentSection (run intents s) = currentSection s.
Proof.
  intros H. revert s. induction H as [ | intent intents Hi Hs IH ]; intros s; simpl.
  - reflexivity.
  - rewrite IH. apply (handle_same_section intent Hi s).
Qed.

Lemma section_changed_only_by_navigation_witness :
  currentSection (run [StartProcedure "xray"; CloseModal; ToggleSound; TimerFires 0] fresh_state)
  = currentSection fresh_state.
Proof.
  apply section_changed_only_by_navigation. repeat constructor.
Defined.

(** ** Showing a section *)

Lemma animateProgressCircle_page (s : State) :
  let s' := exec animateProgressCircle s in
  same_view s s' /\ same_modal s s' /\ same_store s s' /\ timers s' = timers s.
Proof.
  unfold animateProgressCircle. run_m.
  destruct (progressRing (document s)); cbn;
    destruct (proceduresCompleted (document s)); cbn;
    destruct (badgesEarned (document s)); cbn; repeat split.
Qed.

Lemma animateBadges_page (s : State) :
  let s' := exec animateBadges s in
  same_view s s' /\ same_modal s s' /\ same_store s s' /\ timers s' = timers s.
Proof.
  unfold animateBadges. run_m. destruct (badgesContainer (document s)); cbn; repeat split.
Qed.

Lemma exec_then {A B} (m : M A) (k : M B) (s : State) :
  exec (m ;; k) s = match outcome m s with
                    | Normal _ => exec k (exec m s)
                    | Throw _ => exec m s
                    end.
Proof.
  unfold exec, outcome, mbind, M_bind. destruct (m s) as [[a | e] s']; reflexivity.
Qed.

Lemma exec_gets {A B} (f : State -> A) (k : A -> M B) (s : State) :
  exec (gets f ≫= k) s = exec (k (f s)) s.
Proof. reflexivity. Qed.

Lemma page_kept_trans (a b c : State) :
  (same_view a b /\ same_modal a b /\ same_store a b /\ timers b = timers a) ->
  (same_view b c /\ same_modal b c /\ same_store b c /\ timers c = timers b) ->
  same_view a c /\ same_modal a c /\ same_store a c /\ timers c = timers a.
Proof.
  unfold same_view, same_modal, same_store.
  intros ((V1 & V2 & V3) & (M1 & M2 & M3 & M4) & (S1 & S2 & S3) & T1)
         ((V4 & V5 & V6) & (M5 & M6 & M7 & M8) & (S4 & S5 & S6) & T2).
  repeat split; congruence.
Qed.

Lemma page_kept_refl (s : State) :
  same_view s s /\ same_modal s s /\ same_store s s /\ timers s = timers s.
Proof. repeat split. Qed.

Lemma render_progress_page (s : State) :
  let s' := exec (animateProgressCircle ;; animateBadges) s in
  same_view s s' /\ same_modal s s' /\ same_store s s' /\ timers s' = timers s.
Proof.
  cbv zeta. rewrite exec_then.
  destruct (outcome animateProgressCircle s); [ | apply animateProgressCircle_page ].
  eapply page_kept_trans; [ apply animateProgressCircle_page | apply animateBadges_page ].
Qed.

Lemma triggerSectionAnimations_page (sectionName : string) (s : State) :
  let s' := exec (triggerSectionAnimations sectionName) s in
  same_view s s' /\ same_modal s s' /\ same_store s s' /\ timers s' = timers s.
Proof.
  cbv zeta. unfold triggerSectionAnimations. rewrite exec_gets.
  destruct (getElementById _ _); [ | apply page_kept_refl ].
  destruct (String.eqb sectionName "procedures"); [ repeat split | ].
  destruct (String.eqb sectionName "progress"); [ apply render_progress_page | ].
  destruct (String.eqb sectionName "tips"); repeat split.
Qed.

Lemma fire_show_found (sectionName : string) (s : State) (i : nat) (el : Element) :
  getElementById (sectionName ++ "-section") (document s) = Some (i, el) ->
  let s' := exec (fire (ShowTargetSection sectionName)) s in
  sections (document s')
  = alter (on_classList fade_in) i (map (on_classList settle) (sections (document s)))
  /\ navButtons (document s') = navButtons (document s)
  /\ currentSection s' = currentSection s
  /\ same_modal s s' /\ same_store s s' /\ timers s' = timers s.
Proof.
  intros G. cbv zeta.
  set (s1 := set_document
               (set_sections
                  (alter (on_classList fade_in) i
                     (map (on_classList settle) (sections (document s)))) (document s)) s).
  assert (E : exec (fire (ShowTargetSection sectionName)) s
              = exec (triggerSectionAnimations sectionName) s1).
  { unfold fire. rewrite exec_gets, G. reflexivity. }
  rewrite E.
  destruct (triggerSectionAnimations_page sectionName s1)
    as ((V1 & V2 & V3) & (M1 & M2 & M3 & M4) & (S1 & S2 & S3) & T).
  split; [ rewrite V1; reflexivity | ]. split; [ rewrite V2; reflexivity | ].
  split; [ rewrite V3; reflexivity | ].
  unfold same_modal, same_store. rewrite M1, M2, M3, M4, S1, S2, S3, T. repeat split.
Qed.

Lemma restyled_ids (f : gset string -> gset string) (l : list Element) :
  map el_id (map (on_classList f) l) = map el_id l.
Proof. induction l as [ | e l IH ]; simpl; [ reflexivity | now rewrite IH ]. Qed.

Lemma altered_ids (f : gset string -> gset string) (i : nat) (l : list Element) :
  map el_id (alter (on_classList f) i l) = map el_id l.
Proof.
  revert i. induction l as [ | e l IH ]; intros [ | i ]; cbn; try reflexivity.
  f_equal. apply IH.
Qed.

Lemma find_by_id_index (x : string) (l l' : list Element) :
  map el_id l = map el_id l' ->
  fst <$> list_find (fun e => el_id e = x) l = fst <$> list_find (fun e => el_id e = x) l'.
Proof.
  revert l'. induction l as [ | e l IH ]; intros [ | e' l' ] H; simpl in H;
    try discriminate H; [ reflexivity | ].
  injection H as He Hl. cbn [list_find]. rewrite <- He.
  destruct (decide (el_id e = x)); [ reflexivity | ].
  specialize (IH l' Hl).
  destruct (list_find _ l) as [[j a] | ], (list_find _ l') as [[j' a'] | ];
    cbn in IH |- *; congruence.
Qed.

Lemma getElementById_index (x : string) (d d' : Dom) (i : nat) (el : Element) :
  getElementById x d = Some (i, el) ->
  map el_id (sections d') = map el_id (sections d) ->
  exists el', getElementById x d' = Some (i, el').
Proof.
  unfold getElementById. intros G H. pose proof (find_by_id_index x _ _ H) as E.
  rewrite G in E. destruct (list_find _ (sections d')) as [[j a] | ]; cbn in E;
    [ | discriminate E ].
  injection E as ->. eexists. reflexivity.
Qed.

Lemma active_in_fade_in (cl : gset string) : "active" ∈ fade_in cl.
Proof.
  unfold fade_in, classList_add. apply elem_of_union. right. apply elem_of_union. left.
  now apply elem_of_singleton.
Qed.

Lemma active_settle (cl : gset string) : "active" ∈ settle cl <-> "active" ∈ cl.
Proof.
  unfold settle, classList_remove. rewrite elem_of_difference, elem_of_singleton.
  split; [ tauto | ]. intros H. split; [ exact H | discriminate ].
Qed.

Lemma fadeOut_not_in_settle (cl : gset string) : "animate-fadeOut" ∉ settle cl.
Proof.
  unfold settle, classList_remove. rewrite elem_of_difference, elem_of_singleton. tauto.
Qed.

Lemma fadeOut_not_in_fade_in (cl : gset string) :
  "animate-fadeOut" ∉ cl -> "animate-fadeOut" ∉ fade_in cl.
Proof.
  unfold fade_in, classList_add. rewrite !elem_of_union, !elem_of_singleton.
  intros H [E | [E | E]]; [ discriminate E | discriminate E | contradiction ].
Qed.

(** X13: after a navigation and its callback exactly the target is
    shown.  When [navigateToSection] returns and an element
    [<name>-section] exists, then once the callback has run the section at
    the target's position, and no other, carries [active]; no section is
    left with the fade-out class; and [currentSection] is the name. *)
Theorem navigation_shows_target (sectionName : string) (activeButton : option ElemRef)
    (s : State) (i : nat) (el : Element) :
  outcome (navigateToSection sectionName activeButton) s = Normal tt ->
  getElementById (sectionName ++ "-section") (document s) = Some (i, el) ->
  let s1 := exec (navigateToSection sectionName activeButton) s in
  let s2 := exec (fire (ShowTargetSection sectionName)) s1 in
  currentSection s2 = sectionName
  /\ (forall j e, sections (document s2) !! j = Some e -> (is_active e <-> j = i))
  /\ Forall (fun e => "animate-fadeOut" ∉ classList e) (sections (document s2))
  /\ map el_id (sections (document s2)) = map el_id (sections (document s)).
Proof.
  intros O G s1 s2.
  destruct (navigateToSection_effect sectionName activeButton s) as (C & _ & _ & N).
  destruct (N O) as (S1 & _). fold s1 in C, S1.
  destruct (getElementById_index _ (document s) (document s1) i el G) as (el1 & G1).
  { rewrite S1. apply restyled_ids. }
  destruct (fire_show_found sectionName s1 i el1 G1) as (S2 & _ & C2 & _). fold s2 in S2, C2.
  split; [ congruence | ]. rewrite S2, S1. split; [ | split ].
  - intros j e H. destruct (decide (j = i)) as [-> | Hj].
    + rewrite list_lookup_alter_eq, !list_lookup_fmap in H.
      destruct (sections (document s) !! i) as [e0 | ]; [ | discriminate H ].
      injection H as <-. split; [ reflexivity | ]. intros _. apply active_in_fade_in.
    + rewrite list_lookup_alter_ne, !list_lookup_fmap in H by congruence.
      destruct (sections (document s) !! j) as [e0 | ]; [ | discriminate H ].
      injection H as <-. split; [ | contradiction ].
      intros A. unfold is_active in A. cbn in A. apply (proj1 (active_settle _)) in A.
      now apply faded_out_inactive in A.
  - apply Forall_forall. intros e He. apply list_elem_of_lookup_1 in He as [j H].
    destruct (decide (j = i)) as [-> | Hj].
    + rewrite list_lookup_alter_eq, !list_lookup_fmap in H.
      destruct (sections (document s) !! i) as [e0 | ]; [ | discriminate H ].
      injection H as <-. cbn. apply fadeOut_not_in_fade_in, fadeOut_not_in_settle.
    + rewrite list_lookup_alter_ne, !list_lookup_fmap in H by congruence.
      destruct (sections (document s) !! j) as [e0 | ]; [ | discriminate H ].
      injection H as <-. cbn. apply fadeOut_not_in_settle.
  - rewrite altered_ids, !restyled_ids. reflexivity.
Qed.

Lemma navigation_shows_target_witness :
  exists e,
    sections (document (exec (fire (ShowTargetSection "tips"))
                          (exec (navigateToSection "tips" None) fresh_state))) !! 3%nat
    = Some e
    /\ is_active e.
Proof.
  assert (O : outcome (navigateToSection "tips" None) fresh_state = Normal tt)
    by (vm_compute; reflexivity).
  assert (G : getElementById ("tips" ++ "-section") (document fresh_state)
              = Some (3%nat, mkElement "tips-section" {["content-section"]}))
    by (vm_compute; reflexivity).
  destruct (navigation_shows_target "tips" None fresh_state _ _ O G) as (_ & A & _ & I).
  destruct (sections (document (exec (fire (ShowTargetSection "tips"))
              (exec (navigateToSection "tips" None) fresh_state))) !! 3%nat) as [e | ] eqn:H.
  - exists e. split; [ reflexivity | ]. apply (A _ _ H). reflexivity.
  - vm_compute in H. discriminate H.
Defined.

Lemma getElementById_lookup (x : string) (d : Dom) (i : nat) (el : Element) :
  getElementById x d = Some (i, el) -> sections d !! i = Some el.
Proof. unfold getElementById. intros G. apply list_find_Some in G. tauto. Qed.

Lemma same_ids_lookup (l l' : list Element) (j : nat) (e : Element) :
  map el_id l' = map el_id l -> l !! j = Some e -> exists e', l' !! j = Some e'.
Proof.
  intros H L. apply lookup_lt_Some in L.
  assert (Hlen : length l' = length l).
  { rewrite <- (length_map el_id l'), <- (length_map el_id l). now rewrite H. }
  apply lookup_lt_is_Some. lia.
Qed.

Lemma navigateToSection_ids (sectionName : string) (activeButton : option ElemRef) (s : State) :
  outcome (navigateToSection sectionName activeButton) s = Normal tt ->
  sections (document (exec (navigateToSection sectionName activeButton) s))
  = map (on_classList fade_out) (sections (document s)).
Proof.
  intros O. destruct (navigateToSection_effect sectionName activeButton s) as (_ & _ & _ & N).
  destruct (N O) as (S & _). exact S.
Qed.

(** X14: two navigations in quick succession leave both targets shown.
    When a second navigation is made before the callback of the first has
    run, and both callbacks then run, each adds [active] to its own
    target and neither removes it from the other's: the sections of both
    targets carry [active], while [currentSection] is the second name. *)
Theorem overlapping_navigations_show_both (first second : string)
    (button1 button2 : option ElemRef) (s : State) (i1 i2 : nat) (el1 el2 : Element) :
  outcome (navigateToSection first button1) s = Normal tt ->
  outcome (navigateToSection second button2) (exec (navigateToSection first button1) s)
  = Normal tt ->
  getElementById (first ++ "-section") (document s) = Some (i1, el1) ->
  getElementById (second ++ "-section") (document s) = Some (i2, el2) ->
  let s2 := exec (navigateToSection second button2)
              (exec (navigateToSection first button1) s) in
  let s4 := exec (fire (ShowTargetSection second)) (exec (fire (ShowTargetSection first)) s2) in
  currentSection s4 = second
  /\ (exists e, sections (document s4) !! i1 = Some e /\ is_active e)
  /\ (exists e, sections (document s4) !! i2 = Some e /\ is_active e).
Proof.
  intros O1 O2 G1 G2 s2 s4.
  set (s1 := exec (navigateToSection first button1) s) in *.
  set (s3 := exec (fire (ShowTargetSection first)) s2) in *.
  pose proof (navigateToSection_ids first button1 s O1) as S1. fold s1 in S1.
  pose proof (navigateToSection_ids second button2 s1 O2) as S2. fold s2 in S2.
  destruct (navigateToSection_effect second button2 s1) as (C2 & _). fold s2 in C2.
  assert (I2 : map el_id (sections (document s2)) = map el_id (sections (document s))).
  { rewrite S2, S1, !restyled_ids. reflexivity. }
  destruct (getElementById_index _ _ (document s2) _ _ G1 I2) as (a2 & Ga).
  destruct (fire_show_found first s2 i1 a2 Ga) as (S3 & _ & C3 & _). fold s3 in S3, C3.
  assert (I3 : map el_id (sections (document s3)) = map el_id (sections (document s))).
  { rewrite S3, altered_ids, restyled_ids. exact I2. }
  destruct (getElementById_index _ _ (document s3) _ _ G2 I3) as (b3 & Gb).
  destruct (fire_show_found second s3 i2 b3 Gb) as (S4 & _ & C4 & _). fold s4 in S4, C4.
  split; [ congruence | ].
  pose proof (getElementById_lookup _ _ _ _ Ga) as La.
  pose proof (getElementById_lookup _ _ _ _ Gb) as Lb.
  assert (L3 : sections (document s3) !! i1
               = Some (on_classList fade_in (on_classList settle a2))).
  { rewrite S3, list_lookup_alter_eq, list_lookup_fmap, La. reflexivity. }
  split.
  - rewrite S4. destruct (decide (i2 = i1)) as [-> | Hne].
    + rewrite list_lookup_alter_eq, list_lookup_fmap, L3. eexists. split; [ reflexivity | ].
      apply active_in_fade_in.
    + rewrite list_lookup_alter_ne, list_lookup_fmap, L3 by exact Hne.
      eexists. split; [ reflexivity | ]. apply active_settle, active_in_fade_in.
  - rewrite S4, list_lookup_alter_eq, list_lookup_fmap, Lb. eexists. split; [ reflexivity | ].
    apply active_in_fade_in.
Qed.

Lemma overlapping_navigations_show_both_witness :
  (exists e, sections (document
               (exec (fire (ShowTargetSection "tips"))
                  (exec (fire (ShowTargetSection "procedures"))
                     (exec (navigateToSection "tips" None)
                        (exec (navigateToSection "procedures" None) fresh_state)))))
             !! 1%nat = Some e /\ is_active e)
  /\ (exists e, sections (document
                  (exec (fire (ShowTargetSection "tips"))
                     (exec (fire (ShowTargetSection "procedures"))
                        (exec (navigateToSection "tips" None)
                           (exec (navigateToSection "procedures" None) fresh_state)))))
                !! 3%nat = Some e /\ is_active e).
Proof.
  assert (O1 : outcome (navigateToSection "procedures" None) fresh_state = Normal tt)
    by (vm_compute; reflexivity).
  assert (O2 : outcome (navigateToSection "tips" None)
                 (exec (navigateToSection "procedures" None) fresh_state) = Normal tt)
    by (vm_compute; reflexivity).
  assert (G1 : getElementById ("procedures" ++ "-section") (document fresh_state)
               = Some (1%nat, mkElement "procedures-section" {["content-section"]}))
    by (vm_compute; reflexivity).
  assert (G2 : getElementById ("tips" ++ "-section") (document fresh_state)
               = Some (3%nat, mkElement "tips-section" {["content-section"]}))
    by (vm_compute; reflexivity).
  destruct (overlapping_navigations_show_both "procedures" "tips" None None fresh_state
              _ _ _ _ O1 O2 G1 G2) as (_ & A & B).
  split; [ exact A | exact B ].
Defined.

(** ** The progress display *)

Lemma fire_show_run (sectionName : string) (s : State) (i : nat) (el : Element) :
  getElementById (sectionName ++ "-section") (document s) = Some (i, el) ->
  fire (ShowTargetSection sectionName) s
  = triggerSectionAnimations sectionName
      (set_document
         (set_sections
            (alter (on_classList fade_in) i
               (map (on_classList settle) (sections (document s)))) (document s)) s).
Proof. intros G. unfold fire. rewrite run_gets, G. reflexivity. Qed.

Lemma trigger_progress_run (s : State) (p : nat * Element) :
  getElementById "progress-section" (document s) = Some p ->
  triggerSectionAnimations "progress" s = (animateProgressCircle ;; animateBadges) s.
Proof.
  intros G. unfold triggerSectionAnimations. rewrite run_gets.
  change ("progress" ++ "-section") with "progress-section". rewrite G. reflexivity.
Qed.

Lemma render_progress_result (s : State) (n0 m0 : nat) (l0 : list (string * string)) :
  proceduresCompleted (document s) = Some n0 ->
  badgesEarned (document s) = Some m0 ->
  badgesContainer (document s) = Some l0 ->
  let s' := exec (animateProgressCircle ;; animateBadges) s in
  outcome (animateProgressCircle ;; animateBadges) s = Normal tt
  /\ proceduresCompleted (document s')
     = Some (length (Progress.completedProcedures (userProgress s)))
  /\ badgesEarned (document s') = Some (length (Progress.badges (userProgress s)))
  /\ badgesContainer (document s')
     = Some (map (fun b => (Badge.icon b, Badge.name b)) (Progress.badges (userProgress s)))
  /\ trace s' = (trace s ++ (if progressRing (document s)
                             then [AnimateProgressRing (calculateCompletionRate s)]
                             else []))%list.
Proof.
  intros Hp Hb Hc. unfold animateProgressCircle, animateBadges. run_m.
  rewrite Hp, Hb. destruct (progressRing (document s)); cbn; rewrite Hc; cbn;
    repeat split; symmetry; apply app_nil_r.
Qed.

Lemma render_progress_missing_counter (s : State) :
  proceduresCompleted (document s) = None ->
  let s' := exec (animateProgressCircle ;; animateBadges) s in
  outcome (animateProgressCircle ;; animateBadges) s = Throw TypeError
  /\ badgesEarned (document s') = badgesEarned (document s)
  /\ badgesContainer (document s') = badgesContainer (document s).
Proof.
  intros Hp. unfold animateProgressCircle, animateBadges. run_m.
  rewrite Hp. destruct (progressRing (document s)); cbn; repeat split.
Qed.

Lemma navigateToSection_widgets (sectionName : string) (activeButton : option ElemRef)
    (s : State) :
  let s' := exec (navigateToSection sectionName activeButton) s in
  proceduresCompleted (document s') = proceduresCompleted (document s)
  /\ badgesEarned (document s') = badgesEarned (document s)
  /\ badgesContainer (document s') = badgesContainer (document s)
  /\ progressRing (document s') = progressRing (document s)
  /\ same_modal s s'.
Proof.
  unfold navigateToSection, activate, playClickSound, playTone. run_m.
  destruct activeButton as [[i | ] | ]; cbn;
    try (destruct (querySelector (document s) _) as [[[i | ] | ] | e]; cbn);
    try (destruct (soundEnabled s) eqn:E; cbn; rewrite ?E; cbn); repeat split.
Qed.

(** X15: entering the progress section shows the record.  When
    [navigateToSection('progress')] returns, the progress section and the
    two counters and the badge container are in the page, then the
    callback returns and the counters show the number of completed
    procedures and of badges, and the container lists the icon and name
    of every badge in the order of the record; where the ring elements
    exist the ring is animated to the completion rate. *)
Theorem progress_section_shows_record (activeButton : option ElemRef) (s : State)
    (i : nat) (el : Element) (n0 m0 : nat) (l0 : list (string * string)) :
  outcome (navigateToSection "progress" activeButton) s = Normal tt ->
  getElementById "progress-section" (document s) = Some (i, el) ->
  proceduresCompleted (document s) = Some n0 ->
  badgesEarned (document s) = Some m0 ->
  badgesContainer (document s) = Some l0 ->
  let s1 := exec (navigateToSection "progress" activeButton) s in
  let s2 := exec (fire (ShowTargetSection "progress")) s1 in
  outcome (fire (ShowTargetSection "progress")) s1 = Normal tt
  /\ proceduresCompleted (document s2)
     = Some (length (Progress.completedProcedures (userProgress s)))
  /\ badgesEarned (document s2) = Some (length (Progress.badges (userProgress s)))
  /\ badgesContainer (document s2)
     = Some (map (fun b => (Badge.icon b, Badge.name b)) (Progress.badges (userProgress s)))
  /\ trace s2 = (trace s1 ++ (if progressRing (document s)
                              then [AnimateProgressRing (calculateCompletionRate s)]
                              else []))%list.
Proof.
  intros O G Hp Hb Hc s1 s2.
  pose proof (navigateToSection_ids "progress" activeButton s O) as S1. fold s1 in S1.
  destruct (navigateToSection_widgets "progress" activeButton s) as (W1 & W2 & W3 & W4 & _).
  destruct (navigateToSection_effect "progress" activeButton s) as (_ & (U & _) & _).
  fold s1 in W1, W2, W3, W4, U.
  destruct (getElementById_index "progress-section" (document s) (document s1) i el G)
    as (e1 & G1); [ rewrite S1; apply restyled_ids | ].
  pose proof (fire_show_run "progress" s1 i e1 G1) as F.
  set (s1' := set_document _ s1) in F.
  destruct (getElementById_index "progress-section" (document s1) (document s1') i e1 G1)
    as (e2 & G2); [ unfold s1'; cbn [document set_document sections set_sections];
                    rewrite altered_ids, restyled_ids; reflexivity | ].
  rewrite (trigger_progress_run s1' _ G2) in F.
  destruct (render_progress_result s1' n0 m0 l0) as (RO & RP & RB & RC & RT);
    [ unfold s1'; cbn; congruence .. | ].
  unfold s2, outcome, exec. rewrite F. fold (outcome (animateProgressCircle ;; animateBadges) s1').
  fold (exec (animateProgressCircle ;; animateBadges) s1').
  split; [ exact RO | ].
  assert (EU : userProgress s1' = userProgress s) by (unfold s1'; cbn; exact U).
  assert (ER : progressRing (document s1') = progressRing (document s))
    by (unfold s1'; cbn; exact W4).
  assert (EC : calculateCompletionRate s1' = calculateCompletionRate s)
    by (unfold calculateCompletionRate; rewrite EU; reflexivity).
  rewrite RP, RB, RC, RT, EU, ER, EC. repeat split.
Qed.

Lemma progress_section_shows_record_witness :
  badgesContainer (document
    (exec (fire (ShowTargetSection "progress"))
       (exec (navigateToSection "progress" None)
          (exec (awardBadge "brave" "Brave Patient" "*" "2024-05-01T10:00:00.000Z")
             fresh_state))))
  = Some [("*", "Brave Patient")].
Proof.
  set (s := exec (awardBadge "brave" "Brave Patient" "*" "2024-05-01T10:00:00.000Z")
              fresh_state).
  assert (O : outcome (navigateToSection "progress" None) s = Normal tt)
    by (vm_compute; reflexivity).
  assert (G : getElementById "progress-section" (document s)
              = Some (2%nat, mkElement "progress-section" {["content-section"]}))
    by (vm_compute; reflexivity).
  destruct (progress_section_shows_record None s _ _ 0%nat 0%nat [] O G
              eq_refl eq_refl eq_refl) as (_ & _ & _ & C & _).
  rewrite C. vm_compute. reflexivity.
Defined.

(** X16: a missing counter stops the callback.  The ring is guarded by
    [if], the two counters are not: when [#procedures-completed] is not in
    the page, the callback of a navigation to the progress section throws
    [TypeError] after the section has been shown, and the badges are not
    rendered. *)
Theorem progress_counter_missing (activeButton : option ElemRef) (s : State)
    (i : nat) (el : Element) :
  outcome (navigateToSection "progress" activeButton) s = Normal tt ->
  getElementById "progress-section" (document s) = Some (i, el) ->
  proceduresCompleted (document s) = None ->
  let s1 := exec (navigateToSection "progress" activeButton) s in
  let s2 := exec (fire (ShowTargetSection "progress")) s1 in
  outcome (fire (ShowTargetSection "progress")) s1 = Throw TypeError
  /\ (exists e, sections (document s2) !! i = Some e /\ is_active e)
  /\ badgesContainer (document s2) = badgesContainer (document s)
  /\ badgesEarned (document s2) = badgesEarned (document s).
Proof.
  intros O G Hp s1 s2.
  pose proof (navigateToSection_ids "progress" activeButton s O) as S1. fold s1 in S1.
  destruct (navigateToSection_widgets "progress" activeButton s) as (W1 & W2 & W3 & _).
  fold s1 in W1, W2, W3.
  destruct (getElementById_index "progress-section" (document s) (document s1) i el G)
    as (e1 & G1); [ rewrite S1; apply restyled_ids | ].
  pose proof (fire_show_run "progress" s1 i e1 G1) as F.
  set (s1' := set_document _ s1) in F.
  destruct (getElementById_index "progress-section" (document s1) (document s1') i e1 G1)
    as (e2 & G2); [ unfold s1'; cbn [document set_document sections set_sections];
                    rewrite altered_ids, restyled_ids; reflexivity | ].
  rewrite (trigger_progress_run s1' _ G2) in F.
  destruct (render_progress_missing_counter s1') as (RO & RB & RC);
    [ unfold s1'; cbn; congruence | ].
  destruct (fire_show_found "progress" s1 i e1 G1) as (S2 & _). fold s2 in S2.
  split; [ unfold outcome; rewrite F; exact RO | ].
  split.
  - rewrite S2, list_lookup_alter_eq, list_lookup_fmap, (getElementById_lookup _ _ _ _ G1).
    eexists. split; [ reflexivity | ]. apply active_in_fade_in.
  - unfold s2, exec. rewrite F. fold (exec (animateProgressCircle ;; animateBadges) s1').
    rewrite RC, RB. unfold s1'. cbn. split; assumption.
Qed.

Lemma progress_counter_missing_witness :
  outcome (fire (ShowTargetSection "progress"))
    (exec (navigateToSection "progress" None)
       (set_document (set_proceduresCompleted None sample_page) fresh_state))
  = Throw TypeError.
Proof.
  set (s := set_document (set_proceduresCompleted None sample_page) fresh_state).
  assert (O : outcome (navigateToSection "progress" None) s = Normal tt)
    by (vm_compute; reflexivity).
  assert (G : getElementById "progress-section" (document s)
              = Some (2%nat, mkElement "progress-section" {["content-section"]}))
    by (vm_compute; reflexivity).
  destruct (progress_counter_missing None s _ _ O G eq_refl) as (T & _).
  exact T.
Defined.

(** ** Refreshing the progress display *)

Lemma awardBadge_document (badgeId badgeName badgeIcon now : string) (s : State) :
  document (exec (awardBadge badgeId badgeName badgeIcon now) s) = document s.
Proof.
  unfold awardBadge, saveProgress, showBadgeNotification, playWelcomeSound. run_m.
  destruct (find _ _); cbn; [ reflexivity | ]. destruct (soundEnabled s); reflexivity.
Qed.

Lemma updateProgressDisplay_shown (s : State) (i : nat) (el : Element) :
  getElementById "progress-section" (document s) = Some (i, el) ->
  is_active el ->
  updateProgressDisplay s = (animateProgressCircle ;; animateBadges) s.
Proof.
  intros G A. unfold updateProgressDisplay. rewrite run_gets, G.
  unfold classList_contains. rewrite bool_decide_eq_true_2 by exact A. reflexivity.
Qed.


(** X17: [awardBadge] leaves the progress display as it is.  The two
    counters and the badge list are written by the progress animations
    only, which [awardBadge] does not call: after an award they show what
    they showed before, also while the progress section is up (the new
    badge appears in the notification only); a call of
    [updateProgressDisplay] after it then shows one badge more, the new
    one last in the list. *)
Theorem awarded_badge_shown_after_refresh (badgeId badgeName badgeIcon now : string)
    (s : State) (i : nat) (el : Element) (n0 m0 : nat) (l0 : list (string * string)) :
  badgeId ∉ badge_ids (userProgress s) ->
  getElementById "progress-section" (document s) = Some (i, el) ->
  is_active el ->
  proceduresCompleted (document s) = Some n0 ->
  badgesEarned (document s) = Some m0 ->
  badgesContainer (document s) = Some l0 ->
  let s1 := exec (awardBadge badgeId badgeName badgeIcon now) s in
  let s2 := exec updateProgressDisplay s1 in
  proceduresCompleted (document s1) = Some n0
  /\ badgesEarned (document s1) = Some m0
  /\ badgesContainer (document s1) = Some l0
  /\ outcome updateProgressDisplay s1 = Normal tt
  /\ badgesEarned (document s2) = Some (S (length (Progress.badges (userProgress s))))
  /\ badgesContainer (document s2)
     = Some (map (fun b => (Badge.icon b, Badge.name b)) (Progress.badges (userProgress s))
             ++ [(badgeIcon, badgeName)])%list.
Proof.
  intros Hnew G A Hp Hb Hc s1 s2.
  pose proof (awardBadge_document badgeId badgeName badgeIcon now s) as D. fold s1 in D.
  destruct (awardBadge_new badgeId badgeName badgeIcon now s Hnew) as (U & _). fold s1 in U.
  split; [ rewrite D; exact Hp | ]. split; [ rewrite D; exact Hb | ].
  split; [ rewrite D; exact Hc | ].
  assert (F : updateProgressDisplay s1 = (animateProgressCircle ;; animateBadges) s1).
  { apply (updateProgressDisplay_shown s1 i el); [ rewrite D; exact G | exact A ]. }
  destruct (render_progress_result s1 n0 m0 l0) as (RO & _ & RB & RC & _);
    [ rewrite D; assumption .. | ].
  unfold s2, outcome, exec. rewrite F.
  fold (outcome (animateProgressCircle ;; animateBadges) s1).
  fold (exec (animateProgressCircle ;; animateBadges) s1).
  split; [ exact RO | ]. rewrite RB, RC, U. cbn [Progress.badges].
  rewrite length_app, map_app. cbn. split; [ f_equal; lia | reflexivity ].
Qed.

Lemma awarded_badge_shown_after_refresh_witness :
  badgesContainer (document
    (exec updateProgressDisplay
       (exec (awardBadge "brave" "Brave Patient" "*" "2024-05-01T10:00:00.000Z")
          (exec (fire (ShowTargetSection "progress"))
             (exec (navigateToSection "progress" None) fresh_state)))))
  = Some [("*", "Brave Patient")].
Proof.
  set (s := exec (fire (ShowTargetSection "progress"))
              (exec (navigateToSection "progress" None) fresh_state)).
  assert (Hnew : "brave" ∉ badge_ids (userProgress s)).
  { vm_compute. intros H. now apply elem_of_nil in H. }
  assert (G : getElementById "progress-section" (document s)
              = Some (2%nat, mkElement "progress-section"
                               (fade_in (settle (fade_out {["content-section"]})))))
    by (vm_compute; reflexivity).
  destruct (awarded_badge_shown_after_refresh "brave" "Brave Patient" "*"
              "2024-05-01T10:00:00.000Z" s _ _ 0%nat 0%nat [] Hnew G
              (active_in_fade_in _) eq_refl eq_refl eq_refl) as (_ & _ & _ & _ & _ & C).
  rewrite C. vm_compute. reflexivity.
Defined.



(** ** Navigation and the modal *)

Lemma fire_same_modal (callback : Callback) (s : State) :
  same_modal s (exec (fire callback) s).
Proof.
  destruct callback as [sectionName | frequency duration type].
  - destruct (getElementById (sectionName ++ "-section") (document s)) as [[i el] | ] eqn:G.
    + destruct (fire_show_found sectionName s i el G) as (_ & _ & _ & M & _). exact M.
    + unfold fire. rewrite exec_gets, G. repeat split.
  - unfold fire, playTone. run_m. destruct (soundEnabled s); repeat split.
Qed.

(** X19: the sections and the modal do not touch each other.  Navigating
    and the callbacks leave the modal, its title, its content and the
    page's scroll lock as they are (a navigation does not close an open
    modal); opening, advancing and closing the modal leave the sections,
    the navigation buttons and [currentSection] as they are. *)
Theorem navigation_and_modal_independent (s : State) :
  (forall sectionName activeButton,
     same_modal s (exec (navigateToSection sectionName activeButton) s))
  /\ (forall callback, same_modal s (exec (fire callback) s))
  /\ (forall procedureType, same_view s (exec (showProcedureModal procedureType) s))
  /\ (forall procedureType, same_view s (exec (startProcedure procedureType) s))
  /\ (forall procedureType step, same_view s (exec (nextProcedureStep procedureType step) s))
  /\ same_view s (exec showHelpModal s)
  /\ same_view s (exec closeModal s).
Proof.
  split; [ intros sectionName activeButton; apply navigateToSection_widgets | ].
  split; [ intros callback; apply fire_same_modal | ].
  split; [ intros p; unfold showProcedureModal; run_m;
           destruct (modal (document s)), (modalTitle (document s)),
             (modalContent (document s)); repeat split | ].
  split; [ intros p; unfold startProcedure, showProcedureModal, playClickSound, playTone; run_m;
           destruct (soundEnabled s) eqn:E; cbn; rewrite ?E; cbn;
           destruct (modal (document s)) eqn:Hm, (modalTitle (document s)) eqn:Ht,
             (modalContent (document s)) eqn:Hc; cbn; rewrite ?Hm; cbn;
           match goal with
           | |- context [querySelector ?d ?x] => destruct (querySelector d x)
           end; repeat split | ].
  split; [ intros p step; unfold nextProcedureStep, playClickSound, playTone; run_m;
           destruct (modalContent (document s)); cbn; [ | repeat split ];
           destruct (soundEnabled s) eqn:E; cbn; rewrite ?E; cbn; repeat split | ].
  split; [ unfold showHelpModal, playClickSound, playTone; run_m;
           destruct (modal (document s)) eqn:Hm, (modalTitle (document s)) eqn:Ht,
             (modalContent (document s)) eqn:Hc; cbn; rewrite ?Hm; cbn;
           try (repeat split; fail);
           destruct (soundEnabled s) eqn:E; cbn; rewrite ?E; cbn; repeat split | ].
  unfold closeModal, playClickSound, playTone. run_m.
  destruct (modal (document s)) eqn:Hm; cbn; rewrite ?Hm; cbn; [ | repeat split ].
  destruct (soundEnabled s) eqn:E; cbn; rewrite ?E; cbn; repeat split.
Qed.

(** ** The sound button *)

Lemma same_sound_refl (s : State) : same_sound s s.
Proof. repeat split. Qed.

Lemma same_sound_trans (a b c : State) : same_sound a b -> same_sound b c -> same_sound a c.
Proof. unfold same_sound. intros (I1 & T1 & E1) (I2 & T2 & E2). repeat split; congruence. Qed.

Lemma navigateToSection_sound (sectionName : string) (activeButton : option ElemRef)
    (s : State) :
  same_sound s (exec (navigateToSection sectionName activeButton) s).
Proof.
  unfold navigateToSection, activate, playClickSound, playTone. run_m.
  destruct activeButton as [[i | ] | ]; cbn;
    try (destruct (querySelector (document s) _) as [[[i | ] | ] | e]; cbn);
    try (destruct (soundEnabled s) eqn:E; cbn; rewrite ?E; cbn); repeat split;
    rewrite ?E; reflexivity.
Qed.

Lemma showProcedureModal_sound (procedureType : string) (s : State) :
  same_sound s (exec (showProcedureModal procedureType) s).
Proof.
  unfold showProcedureModal. run_m.
  destruct (modal (document s)), (modalTitle (document s)), (modalContent (document s));
    repeat split.
Qed.

Lemma startProcedure_sound (procedureType : string) (s : State) :
  same_sound s (exec (startProcedure procedureType) s).
Proof.
  unfold startProcedure, showProcedureModal, playClickSound, playTone. run_m.
  destruct (soundEnabled s) eqn:E; cbn; rewrite ?E; cbn;
    destruct (modal (document s)) eqn:Hm, (modalTitle (document s)) eqn:Ht,
      (modalContent (document s)) eqn:Hc; cbn; rewrite ?Hm; cbn;
    match goal with
    | |- context [querySelector ?d ?x] => destruct (querySelector d x)
    end; repeat split; rewrite ?E; reflexivity.
Qed.

Lemma nextProcedureStep_sound (procedureType step : string) (s : State) :
  same_sound s (exec (nextProcedureStep procedureType step) s).
Proof.
  unfold nextProcedureStep, playClickSound, playTone. run_m.
  destruct (modalContent (document s)); cbn; [ | repeat split ].
  destruct (soundEnabled s) eqn:E; cbn; rewrite ?E; cbn; repeat split; rewrite ?E; reflexivity.
Qed.

Lemma showHelpModal_sound (s : State) : same_sound s (exec showHelpModal s).
Proof.
  unfold showHelpModal, playClickSound, playTone. run_m.
  destruct (modal (document s)) eqn:Hm, (modalTitle (document s)) eqn:Ht,
    (modalContent (document s)) eqn:Hc; cbn; rewrite ?Hm; cbn;
    try (repeat split; fail);
    destruct (soundEnabled s) eqn:E; cbn; rewrite ?E; cbn; repeat split; rewrite ?E; reflexivity.
Qed.

Lemma closeModal_sound (s : State) : same_sound s (exec closeModal s).
Proof.
  unfold closeModal, playClickSound, playTone. run_m.
  destruct (modal (document s)) eqn:Hm; cbn; rewrite ?Hm; cbn; [ | repeat split ].
  destruct (soundEnabled s) eqn:E; cbn; rewrite ?E; cbn; repeat split; rewrite ?E; reflexivity.
Qed.

Lemma playTone_sound (frequency : Z) (duration : Q) (type : string) (s : State) :
  same_sound s (exec (playTone frequency duration type) s).
Proof. unfold playTone. run_m. destruct (soundEnabled s) eqn:E; repeat split. Qed.

Lemma awardBadge_sound (badgeId badgeName badgeIcon now : string) (s : State) :
  same_sound s (exec (awardBadge badgeId badgeName badgeIcon now) s).
Proof.
  unfold same_sound. rewrite awardBadge_document. split; [ reflexivity | ].
  split; [ reflexivity | ].
  destruct (decide (badgeId ∈ badge_ids (userProgress s))) as [Hin | Hnew].
  - unfold exec. now rewrite awardBadge_existing.
  - apply (awardBadge_new badgeId badgeName badgeIcon now s Hnew).
Qed.

Lemma render_progress_sound (s : State) :
  same_sound s (exec (animateProgressCircle ;; animateBadges) s).
Proof.
  unfold animateProgressCircle, animateBadges. run_m.
  destruct (progressRing (document s)); cbn;
    destruct (proceduresCompleted (document s)); cbn;
    destruct (badgesEarned (document s)); cbn;
    destruct (badgesContainer (document s)); cbn; repeat split.
Qed.

Lemma triggerSectionAnimations_sound (sectionName : string) (s : State) :
  same_sound s (exec (triggerSectionAnimations sectionName) s).
Proof.
  unfold triggerSectionAnimations. rewrite exec_gets.
  destruct (getElementById _ _); [ | apply same_sound_refl ].
  destruct (String.eqb sectionName "procedures"); [ repeat split | ].
  destruct (String.eqb sectionName "progress"); [ apply render_progress_sound | ].
  destruct (String.eqb sectionName "tips"); repeat split.
Qed.

Lemma updateProgressDisplay_sound (s : State) : same_sound s (exec updateProgressDisplay s).
Proof.
  unfold updateProgressDisplay. rewrite exec_gets.
  destruct (getElementById _ _) as [[i el] | ]; [ | apply same_sound_refl ].
  destruct (classList_contains _ _); [ apply render_progress_sound | apply same_sound_refl ].
Qed.

Lemma fire_sound (callback : Callback) (s : State) : same_sound s (exec (fire callback) s).
Proof.
  destruct callback as [sectionName | frequency duration type]; [ | apply playTone_sound ].
  destruct (getElementById (sectionName ++ "-section") (document s)) as [[i el] | ] eqn:G.
  - unfold exec. rewrite (fire_show_run sectionName s i el G).
    eapply same_sound_trans; [ | apply triggerSectionAnimations_sound ]. repeat split.
  - unfold fire. rewrite exec_gets, G. apply same_sound_refl.
Qed.

Lemma handle_sound (intent : Intent) (s : State) :
  is_toggle intent = false -> same_sound s (exec (handle intent) s).
Proof.
  destruct intent; cbn [handle is_toggle]; intros H; try discriminate H.
  - apply navigateToSection_sound.
  - apply startProcedure_sound.
  - apply showProcedureModal_sound.
  - apply nextProcedureStep_sound.
  - apply closeModal_sound.
  - apply showHelpModal_sound.
  - unfold playHoverSound. rewrite exec_gets.
    destruct (soundEnabled s); [ apply playTone_sound | apply same_sound_refl ].
  - repeat split.
  - apply awardBadge_sound.
  - apply updateProgressDisplay_sound.
  - rewrite exec_gets. destruct (timers s !! i) as [[delay callback] | ];
      [ | apply same_sound_refl ].
    rewrite exec_then. cbn.
    eapply same_sound_trans; [ | apply fire_sound ]. repeat split.
Qed.

Lemma toggleSound_icon (s : State) : icon_shows_flag s -> icon_shows_flag (exec toggleSound s).
Proof.
  unfold icon_shows_flag, toggleSound, saveProgress. run_m.
  destruct (soundToggle (document s)); cbn; [ | exact (fun H => H) ].
  destruct (soundIcon (document s)) as [old | ] eqn:I; cbn; [ | now rewrite I ].
  intros _ icon H. injection H as <-. reflexivity.
Qed.

(** X20: the sound button shows the flag.  When the icon shows the state
    of [soundEnabled] (the speaker while it is on, the muted speaker while
    it is off), it still does after any sequence of operations: the toggle
    changes both together, also where the button is not in the page and
    the toggle does nothing, and no other operation changes either. *)
Theorem sound_icon_shows_flag (intents : list Intent) (s : State) :
  icon_shows_flag s -> icon_shows_flag (run intents s).
Proof.
  revert s. induction intents as [ | intent intents IH ]; intros s H; simpl; [ exact H | ].
  apply IH. destruct (is_toggle intent) eqn:T.
  - destruct intent; try discriminate T. apply toggleSound_icon. exact H.
  - destruct (handle_sound intent s T) as (I & _ & E). unfold icon_shows_flag.
    rewrite I, E. exact H.
Qed.

Lemma sound_icon_shows_flag_witness :
  icon_shows_flag fresh_state
  /\ icon_shows_flag (run [ToggleSound; Navigate "tips" None; TimerFires 0; ToggleSound;
                           ToggleSound] fresh_state).
Proof.
  assert (H : icon_shows_flag fresh_state).
  { intros icon I. vm_compute in I. injection I as <-. reflexivity. }
  split; [ exact H | ]. apply sound_icon_shows_flag. exact H.
Defined.
